(** * lampe.nn.flows: conditional normalizing flows

    A shallow embedding of [src/lampe/nn/flows.py]: the [NormalizingFlow]
    wrapper (methods [log_prob] and [sample]) and the [MAF] builder.

    The module is a thin layer over two external libraries (a tensor
    runtime and a flow/transform library).  Their objects are embedded as
    plain data (tensors as a shape with row-major contents, transforms as
    the record of their constructor arguments), their random and fallible
    operations as the fields of an interface, and the code of the module
    in a state-and-error monad over the random generator of the runtime. *)

From stdpp Require Import base strings gmap list.
From Stdlib Require Import ZArith QArith Reals Lra Lia Permutation.

Set Default Proof Using "Type".
Set Warnings "-register-all".
Local Open Scope nat_scope.

(** ** Python values held by the keyword options *)

(** The values a caller can put in [**kwargs]: numbers, flags, strings,
    lists (the widths of a network) and callables (an activation such as
    [F.relu], named after the function). *)
Inductive pyval : Type :=
| PyInt (z : Z)
| PyBool (b : bool)
| PyFloat (q : Q)
| PyStr (s : string)
| PyList (l : list pyval)
| PyFunc (name : string).

(** ** Exceptions and results *)

Inductive exn : Type := TypeError | ValueError | RuntimeError.

Inductive Result (A : Type) : Type :=
| Ok (a : A)
| Raise (e : exn).
Arguments Ok {A} a.
Arguments Raise {A} e.

Definition is_ok {A} (r : Result A) : bool :=
  match r with Ok _ => true | Raise _ => false end.

(** ** Tensors *)

(** A tensor is its shape and its contents in row-major order. *)
Record Tensor : Type := mkTensor { shape : list nat; data : list R }.

(** [torch.Size(s).numel()] *)
Definition numel (s : list nat) : nat := foldr Nat.mul 1 s.

(** [s[:-1]] on a tuple: everything but the last entry (empty stays empty). *)
Definition init_slice (s : list nat) : list nat := take (length s - 1) s.

(** [s[-1:]] on a tuple: the last entry as a tuple (empty stays empty). *)
Definition last_slice (s : list nat) : list nat := drop (length s - 1) s.

(** [t[None]]: a new leading dimension of size one. *)
Definition unsqueeze0 (t : Tensor) : Tensor :=
  mkTensor (1 :: shape t) (data t).

(** [t.view(s)] for a tuple [s] of non-negative sizes: the same contents
    under another shape, an error unless the element counts agree. *)
Definition view (t : Tensor) (s : list nat) : Result Tensor :=
  if Nat.eqb (numel s) (numel (shape t))
  then Ok (mkTensor s (data t))
  else Raise RuntimeError.

Definition well_shaped (t : Tensor) : Prop :=
  length (data t) = numel (shape t).

(** Contents of a tensor cut into consecutive blocks of [k] entries. *)
Fixpoint chunks (n k : nat) (l : list R) : list (list R) :=
  match n with
  | O => []
  | S n' => take k l :: chunks n' k (drop k l)
  end.

(** The items of a tensor along its leading dimension; a tensor without
    dimensions has none to iterate. *)
Definition rows (t : Tensor) : Result (list Tensor) :=
  match shape t with
  | [] => Raise TypeError
  | b :: s => Ok (mkTensor s <$> chunks b (numel s) (data t))
  end.

(** Pointwise tensor arithmetic of the standardization step.  The moments
    are two vectors of the same length, so both operands of the division
    have one shape; operands of different shapes (which the runtime would
    try to broadcast) are outside this model and rejected here, and no
    property below rests on that rejection. *)
Definition tneg (t : Tensor) : Tensor :=
  mkTensor (shape t) (Ropp <$> data t).

Definition trecip (t : Tensor) : Tensor :=
  mkTensor (shape t) ((λ s, 1 / s)%R <$> data t).

Definition tdiv (a b : Tensor) : Result Tensor :=
  if decide (shape a = shape b)
  then Ok (mkTensor (shape a) (zip_with Rdiv (data a) (data b)))
  else Raise RuntimeError.

Definition zeros (n : nat) : Tensor := mkTensor [n] (replicate n 0%R).
Definition ones (n : nat) : Tensor := mkTensor [n] (replicate n 1%R).

(** ** Keyword options *)

(** [kwargs.setdefault(k, v)] *)
Definition setdefault (k : string) (v : pyval) (kwargs : gmap string pyval)
  : gmap string pyval :=
  match kwargs !! k with
  | Some _ => kwargs
  | None => <[k := v]> kwargs
  end.

(** The three autoregressive transform classes of the transform library. *)
Inductive TransformClass : Type :=
| MaskedAffineAutoregressiveTransform
| MaskedPiecewiseRationalQuadraticAutoregressiveTransform
| MaskedUMNNAutoregressiveTransform.

Global Instance TransformClass_eq_dec : EqDecision TransformClass.
Proof. solve_decision. Defined.

(** Lines 72-91 of [MAF.__init__]: the defaults common to all
    architectures, then the dispatch on the architecture tag with the
    options of each branch.  Returns the selected class [tf] and the
    accumulated [kwargs]. *)
Definition MAF_options (architecture : string) (kwargs : gmap string pyval)
  : TransformClass * gmap string pyval :=
  let kwargs := setdefault "hidden_features" (PyInt 64) kwargs in
  let kwargs := setdefault "num_blocks" (PyInt 2) kwargs in
  let kwargs := setdefault "use_residual_blocks" (PyBool false) kwargs in
  let kwargs := setdefault "use_batch_norm" (PyBool false) kwargs in
  let kwargs := setdefault "activation" (PyFunc "relu") kwargs in
  if String.eqb architecture "PRQ" then
    let kwargs := <["tails" := PyStr "linear"]> kwargs in
    let kwargs := setdefault "num_bins" (PyInt 8) kwargs in
    let kwargs := setdefault "tail_bound" (PyFloat 1) kwargs in
    (MaskedPiecewiseRationalQuadraticAutoregressiveTransform, kwargs)
  else if String.eqb architecture "UMNN" then
    let kwargs :=
      setdefault "integrand_net_layers"
        (PyList [PyInt 64; PyInt 64; PyInt 64]) kwargs in
    let kwargs := setdefault "cond_size" (PyInt 32) kwargs in
    let kwargs := setdefault "nb_steps" (PyInt 32) kwargs in
    (MaskedUMNNAutoregressiveTransform, kwargs)
  else
    (MaskedAffineAutoregressiveTransform, kwargs).

(** ** The external libraries *)

(** What the module takes from the tensor runtime and the transform
    library without looking inside: the random generator, the constructor
    of the fixed affine transform with its validation, the learnable
    parameters of an autoregressive transform with the constructor that
    validates its arguments and initialises them, the two directions of such
    a transform on one item, and the random draws.  Every call may raise
    whatever the library raises, and a pass through an autoregressive
    transform may read and advance the generator (the dropout masks of a
    network in training mode). *)
Class FlowLibrary : Type := {
  RNG : Type;
  Params : Type;
  (** the validation of [T.PointwiseAffineTransform(shift, scale)]; the
      constructor draws nothing *)
  affine_init : Tensor → Tensor → Result unit;
  (** a scale that is strictly positive everywhere is accepted *)
  affine_init_positive :
    ∀ shift scale,
      Forall (λ s, (0 < s)%R) (data scale) → affine_init shift scale = Ok tt;
  (** [tf(features, context_features, **kwargs)] of class [tf] *)
  ar_init : TransformClass → nat → nat → gmap string pyval →
            RNG → Result Params * RNG;
  (** data to noise, with the log-determinant of the Jacobian *)
  ar_forward : TransformClass → nat → nat → gmap string pyval → Params →
               list R → Tensor → RNG → Result (list R * R) * RNG;
  (** noise to data *)
  ar_inverse : TransformClass → nat → nat → gmap string pyval → Params →
               list R → Tensor → RNG → Result (list R * R) * RNG;
  ar_inverse_length :
    ∀ tf n m kw θ z c g x l g',
      ar_inverse tf n m kw θ z c g = (Ok (x, l), g') → length x = length z;
  (** [torch.randperm(n)] behind [T.RandomPermutation(features=n)] *)
  randperm : nat → RNG → Result (list nat) * RNG;
  randperm_Permutation :
    ∀ n g p g', randperm n g = (Ok p, g') → Permutation p (seq 0 n);
  (** [torch.randn(n)]: [n] standard-normal draws *)
  randn : nat → RNG → Result (list R) * RNG;
  randn_length :
    ∀ n g z g', randn n g = (Ok z, g') → length z = n;
}.

Section Flows.
Context `{L : FlowLibrary}.

(** Computations of the module: they read and advance the random
    generator and may raise. *)
Definition M (A : Type) : Type := RNG → Result A * RNG.

Definition ret {A} (a : A) : M A := λ g, (Ok a, g).
Definition raise {A} (e : exn) : M A := λ g, (Raise e, g).
Definition lift {A} (r : Result A) : M A := λ g, (r, g).
Definition bind {A B} (m : M A) (k : A → M B) : M B :=
  λ g, match m g with
       | (Ok a, g') => k a g'
       | (Raise e, g') => (Raise e, g')
       end.

Notation "'let!' x ':=' m 'in' k" := (bind m (λ x, k))
  (at level 10, x name, m at level 100, k at level 200, only parsing).
Notation "'let!' ' p ':=' m 'in' k" := (bind m (λ x, match x with p => k end))
  (at level 10, p pattern, m at level 100, k at level 200, only parsing).

(** A computation applied to every item of a list, left to right; the
    first exception aborts. *)
Fixpoint mapM {A B} (f : A → M B) (l : list A) : M (list B) :=
  match l with
  | [] => ret []
  | a :: l' =>
      let! b := f a in
      let! bs := mapM f l' in
      ret (b :: bs)
  end.

(** A computation that returns at every state of the generator. *)
Definition accepts {A} (m : M A) : Prop :=
  ∀ g, ∃ a g', m g = (Ok a, g').

(** *** Transforms and distributions, as the data of their constructors *)

Inductive Transform : Type :=
| PointwiseAffineTransform (shift scale : Tensor)
| AutoregressiveTransform (tf : TransformClass)
    (features context_features : nat) (kwargs : gmap string pyval)
    (params : Params)
| RandomPermutation (features : nat) (permutation : list nat).

Inductive Distribution : Type :=
| StandardNormal (event_shape : list nat).

Definition event_shape (d : Distribution) : list nat :=
  match d with StandardNormal s => s end.

(** [NormalizingFlow(base, transforms)]: the flow container keeps the
    composite of [transforms] and the base distribution. *)
Record NormalizingFlow : Type := mkFlow {
  transforms : list Transform;
  base : Distribution;
}.

Definition NormalizingFlow_init (base : Distribution)
    (transforms : list Transform) : M NormalizingFlow :=
  ret (mkFlow transforms base).

(** *** MAF.__init__ *)

(** The call [tf(features=x_size, context_features=y_size, **kwargs)]: a
    keyword given twice is a [TypeError] of the call itself; otherwise the
    constructor of the library runs. *)
Definition new_autoregressive (tf : TransformClass)
    (features context_features : nat) (kwargs : gmap string pyval)
  : M Transform :=
  match kwargs !! "features", kwargs !! "context_features" with
  | None, None =>
      let! θ := ar_init tf features context_features kwargs in
      ret (AutoregressiveTransform tf features context_features kwargs θ)
  | _, _ => raise TypeError
  end.

(** [T.RandomPermutation(features=x_size)]: the permutation is drawn once,
    here, and stored. *)
Definition new_permutation (features : nat) : M Transform :=
  let! p := randperm features in
  ret (RandomPermutation features p).

(** Lines 99-107: [num_transforms] rounds, each extending the list by a
    new autoregressive transform and a new permutation, in this order. *)
Fixpoint MAF_loop (tf : TransformClass) (x_size y_size : nat)
    (kwargs : gmap string pyval) (rounds : nat) (transforms : list Transform)
  : M (list Transform) :=
  match rounds with
  | O => ret transforms
  | S rounds' =>
      let! t := new_autoregressive tf x_size y_size kwargs in
      let! p := new_permutation x_size in
      MAF_loop tf x_size y_size kwargs rounds' (transforms ++ [t; p])
  end.

(** [T.PointwiseAffineTransform(shift, scale)]: the library validates the
    arguments (it refuses a scale that is not strictly positive) and stores
    them. *)
Definition new_affine (shift scale : Tensor) : M Transform :=
  let! accepted := lift (affine_init shift scale) in
  ret (PointwiseAffineTransform shift scale).

(** Lines 93-97: the list starts empty and, with moments, receives the
    standardization transform first; its two arguments are computed, then
    its constructor runs. *)
Definition MAF_standardize (moments : option (Tensor * Tensor))
  : M (list Transform) :=
  match moments with
  | Some (shift, scale) =>
      let! offset := lift (tdiv (tneg shift) scale) in
      let! t := new_affine offset (trecip scale) in
      ret ([] ++ [t])
  | None => ret []
  end.

(** [MAF(x_size, y_size, architecture, num_transforms, moments, **kwargs)];
    [range(num_transforms)] is empty for a count below one. *)
Definition MAF (x_size y_size : nat) (architecture : string)
    (num_transforms : Z) (moments : option (Tensor * Tensor))
    (kwargs : gmap string pyval) : M NormalizingFlow :=
  let '(tf, kwargs) := MAF_options architecture kwargs in
  let! transforms := MAF_standardize moments in
  let! transforms :=
    MAF_loop tf x_size y_size kwargs (Z.to_nat num_transforms) transforms in
  let base := StandardNormal [x_size] in
  NormalizingFlow_init base transforms.

(** *** What the flow container does with a stack of transforms *)

(** Position of [i] in a permutation (its length when absent). *)
Fixpoint index_of (i : nat) (p : list nat) : nat :=
  match p with
  | [] => 0
  | j :: p' => if Nat.eqb i j then 0 else S (index_of i p')
  end.

Definition Rsum (l : list R) : R := foldr Rplus 0%R l.

(** Modelled from the spec: one transform applied to one item [x] under
    the context item [c], data to noise, with its log-Jacobian.  The fixed
    affine transform computes [x * scale + shift] entry by entry, a
    permutation reorders the entries, an autoregressive transform is the
    library's pass, which alone may touch the generator. *)
Definition forward (t : Transform) (x : list R) (c : Tensor)
  : M (list R * R) :=
  match t with
  | PointwiseAffineTransform shift scale =>
      lift (if decide (length (data scale) = length x ∧
                       length (data shift) = length x)
            then Ok (zip_with Rplus (zip_with Rmult x (data scale))
                       (data shift),
                     Rsum (ln <$> data scale))
            else Raise RuntimeError)
  | AutoregressiveTransform tf n m kw θ => ar_forward tf n m kw θ x c
  | RandomPermutation _ p =>
      lift (if decide (length x = length p)
            then Ok ((λ i, nth i x 0%R) <$> p, 0%R)
            else Raise ValueError)
  end.

(** Modelled from the spec: the same transform, noise to data. *)
Definition inverse (t : Transform) (z : list R) (c : Tensor)
  : M (list R * R) :=
  match t with
  | PointwiseAffineTransform shift scale =>
      lift (if decide (length (data scale) = length z ∧
                       length (data shift) = length z)
            then Ok (zip_with Rdiv (zip_with Rminus z (data shift))
                       (data scale),
                     (- Rsum (ln <$> data scale))%R)
            else Raise RuntimeError)
  | AutoregressiveTransform tf n m kw θ => ar_inverse tf n m kw θ z c
  | RandomPermutation _ p =>
      lift (if decide (length z = length p)
            then Ok ((λ i, nth (index_of i p) z 0%R) <$> seq 0 (length p),
                     0%R)
            else Raise ValueError)
  end.

(** Modelled from the spec: "a CompositeTransform is an ordered sequence of
    Transforms applied left-to-right ... its log-Jacobian is the sum of
    constituents' log-Jacobians". *)
Fixpoint cascade (step : Transform → list R → Tensor → M (list R * R))
    (ts : list Transform) (x : list R) (c : Tensor) : M (list R * R) :=
  match ts with
  | [] => ret (x, 0%R)
  | t :: ts' =>
      let! '(x1, l1) := step t x c in
      let! '(x2, l2) := cascade step ts' x1 c in
      ret (x2, (l1 + l2)%R)
  end.

Definition composite_forward (ts : list Transform) := cascade forward ts.
Definition composite_inverse (ts : list Transform) :=
  cascade inverse (rev ts).

(** Modelled from the spec: the log-density of the isotropic standard
    normal at one item, [-|z|^2 / 2 - d/2 * log(2 pi)]; an item of another
    shape than the event shape is refused. *)
Definition base_log_prob (d : Distribution) (z : Tensor) : Result R :=
  match d with
  | StandardNormal s =>
      if decide (shape z = s ∧ length (data z) = numel s)
      then Ok (- / 2 * Rsum ((λ v, v * v) <$> data z)
               - / 2 * INR (numel s) * ln (2 * PI))%R
      else Raise ValueError
  end.

(** Modelled from the spec: [Flow.log_prob(x, context)], "inverse-transform
    x through the composite, evaluate base log-density, add log-Jacobian",
    item by item for a batch [x] and a batch of contexts with as many
    items; "fails with a shape/dimension error if x and y batch shapes are
    incompatible". *)
Definition Flow_log_prob (self : NormalizingFlow) (x context : Tensor)
  : M Tensor :=
  let! xs := lift (rows x) in
  let! cs := lift (rows context) in
  if decide (length xs = length cs) then
    let! lps :=
      mapM (λ '(xi, ci),
              let! '(z, logabsdet) :=
                composite_forward (transforms self) (data xi) ci in
              let! lp :=
                lift (base_log_prob (base self) (mkTensor (shape xi) z)) in
              ret (lp + logabsdet)%R)
           (zip xs cs) in
    ret (mkTensor [length xs] lps)
  else raise ValueError.

(** Modelled from the spec: [Flow._sample(num_samples, context)] draws
    [num_samples] items of base noise for every item of the context batch
    (all the noise in one draw), pushes each through the composite
    conditioned on its context item, and returns them with the shape
    (context items, [num_samples], event shape). *)
Definition Flow_sample (self : NormalizingFlow) (num_samples : nat)
    (context : Tensor) : M Tensor :=
  let! cs := lift (rows context) in
  let d := numel (event_shape (base self)) in
  let! noise := randn (length cs * num_samples * d) in
  let zs := chunks (length cs * num_samples) d noise in
  let ctx := cs ≫= replicate num_samples in
  let! xs :=
    mapM (λ '(z, c),
            let! '(x, _) := composite_inverse (transforms self) z c in
            ret x)
         (zip zs ctx) in
  ret (mkTensor ([length cs; num_samples] ++ event_shape (base self))
                (concat xs)).

(** *** NormalizingFlow.log_prob and NormalizingFlow.sample *)

(** Lines 32-35: [log p(x | y)], delegated to the flow container. *)
Definition log_prob (self : NormalizingFlow) (x y : Tensor) : M Tensor :=
  Flow_log_prob self x y.

(** Lines 37-45: [x ~ p(x | y)]; [shape] is a tuple of sizes. *)
Definition sample (self : NormalizingFlow) (y : Tensor) (shape' : list nat)
  : M Tensor :=
  let size := numel shape' in
  let! x := Flow_sample self size (unsqueeze0 y) in
  let! x := lift (view x (init_slice (shape y) ++ shape'
                          ++ last_slice (shape x))) in
  ret x.

End Flows.

Notation "'let!' x ':=' m 'in' k" := (bind m (λ x, k))
  (at level 10, x name, m at level 100, k at level 200, only parsing).
Notation "'let!' ' p ':=' m 'in' k" := (bind m (λ x, match x with p => k end))
  (at level 10, p pattern, m at level 100, k at level 200, only parsing).

(** ** A small library to run the module on *)

(** An instance of the interface on which the definitions evaluate: the
    generator is a counter, an autoregressive transform translates every
    entry by its parameter (the counter at its construction), a permutation
    reverses the features, and sizes must be positive as in the real
    constructors.  With a [dropout_probability] other than zero among its
    options, a pass through an autoregressive transform reads the generator
    and advances it, as a network with dropout does in training mode. *)
Module Toy.

Definition affine (shift scale : Tensor) : Result unit := Ok tt.

Definition init (tf : TransformClass) (n m : nat)
    (kw : gmap string pyval) (g : nat) : Result nat * nat :=
  if Nat.eqb n 0 then (Raise ValueError, g) else (Ok g, S g).

Definition dropout (kw : gmap string pyval) : bool :=
  match kw !! "dropout_probability" with
  | Some (PyFloat q) => negb (Qeq_bool q 0)
  | _ => false
  end.

Definition fwd (tf : TransformClass) (n m : nat)
    (kw : gmap string pyval) (θ : nat) (x : list R) (c : Tensor) (g : nat)
  : Result (list R * R) * nat :=
  if dropout kw
  then (Ok ((λ v, v + INR θ + INR g)%R <$> x, 0%R), S g)
  else (Ok ((λ v, v + INR θ)%R <$> x, 0%R), g).

Definition inv (tf : TransformClass) (n m : nat)
    (kw : gmap string pyval) (θ : nat) (z : list R) (c : Tensor) (g : nat)
  : Result (list R * R) * nat :=
  if dropout kw
  then (Ok ((λ v, v - INR θ - INR g)%R <$> z, 0%R), S g)
  else (Ok ((λ v, v - INR θ)%R <$> z, 0%R), g).

Definition perm (n g : nat) : Result (list nat) * nat :=
  if Nat.eqb n 0 then (Raise ValueError, g) else (Ok (rev (seq 0 n)), S g).

Definition normal (n g : nat) : Result (list R) * nat :=
  (Ok (replicate n (INR g)), S g).

Definition library : FlowLibrary.
Proof.
  refine {| RNG := nat; Params := nat; affine_init := affine;
            ar_init := init; ar_forward := fwd; ar_inverse := inv;
            randperm := perm; randn := normal |}.
  - done.
  - intros tf n m kw θ z c g x l g'. unfold inv.
    destruct (dropout kw); intros [= <- _ _]; by rewrite length_fmap.
  - intros n g p g'. unfold perm.
    destruct (Nat.eqb n 0); intros [= <- _].
    symmetry. apply Permutation_rev.
  - intros n g z g' [= <- _]. apply length_replicate.
Defined.

End Toy.

(** Options of a caller who overrides one common default, one default of
    the spline architecture, and asks for other tails. *)
Definition toy_kwargs : gmap string pyval :=
  <["hidden_features" := PyInt 128]>
    (<["num_bins" := PyInt 3]> (<["tails" := PyStr "circular"]> ∅)).

(** Moments of two features. *)
Definition toy_shift : Tensor := mkTensor [2] [1; 2]%R.
Definition toy_scale : Tensor := mkTensor [2] [2; 4]%R.

(** Options that turn dropout on in the conditioner networks. *)
Definition toy_dropout : gmap string pyval :=
  <["dropout_probability" := PyFloat (1 # 2)]> ∅.

(** A batch of one item of two features and a batch of one context. *)
Definition toy_x : Tensor := mkTensor [1; 2] [3; 6]%R.
Definition toy_y : Tensor := mkTensor [1; 2] [0; 0]%R.

(** ** Vocabulary of the properties *)

Section Vocabulary.
Context `{L : FlowLibrary}.

(** [rounds] rounds of the loop leave [rounds] pairs: an autoregressive
    transform of class [tf] over [x] features and [y] context features with
    the options [kw], then a permutation of the [x] features. *)
Fixpoint blocks (tf : TransformClass) (x y : nat) (kw : gmap string pyval)
    (rounds : nat) (ts : list Transform) : Prop :=
  match rounds with
  | O => ts = []
  | S rounds' =>
      ∃ θ p rest,
        ts = AutoregressiveTransform tf x y kw θ
               :: RandomPermutation x p :: rest ∧
        Permutation p (seq 0 x) ∧
        blocks tf x y kw rounds' rest
  end.

(** [(x - shift) / scale], entry by entry. *)
Definition standardize (x shift scale : list R) : list R :=
  zip_with Rdiv (zip_with Rminus x shift) scale.

(** What the constructor call of an autoregressive transform was given;
    holds of every other transform. *)
Definition receives (P : TransformClass → nat → nat → gmap string pyval → Prop)
    (t : Transform) : Prop :=
  match t with
  | AutoregressiveTransform tf features context_features kwargs _ =>
      P tf features context_features kwargs
  | _ => True
  end.

(** Whether a transform is one of the learnable autoregressive ones. *)
Definition autoregressive (t : Transform) : bool :=
  match t with
  | AutoregressiveTransform _ _ _ _ _ => true
  | _ => false
  end.

(** The standardization transform built from all-zero shifts and all-one
    scales. *)
Definition identity_standardization (n : nat) : Transform :=
  PointwiseAffineTransform
    (mkTensor [n] (replicate n (- 0 / 1)%R))
    (mkTensor [n] (replicate n (1 / 1)%R)).

(** The log-density of the standard normal at [z]. *)
Definition standard_normal_log_density (z : list R) : R :=
  (- / 2 * Rsum ((λ v, v * v) <$> z) - / 2 * INR (length z) * ln (2 * PI))%R.

(** The density that a flow made of the standardization alone assigns to
    [x]: the standard normal at the standardized [x] with the log-Jacobian
    of the standardization, the standard normal at [x] without moments. *)
Definition standardized_log_density (moments : option (Tensor * Tensor))
    (x : list R) : R :=
  match moments with
  | Some (shift, scale) =>
      (standard_normal_log_density (standardize x (data shift) (data scale))
       + Rsum (ln <$> ((λ c, 1 / c)%R <$> data scale)))%R
  | None => standard_normal_log_density x
  end.

(** The option names that [MAF.__init__] fills in for every architecture
    (lines 72-76) and those of the branch an architecture tag takes
    (lines 78-91). *)
Definition common_keys : list string :=
  ["hidden_features"; "num_blocks"; "use_residual_blocks"; "use_batch_norm";
   "activation"].

Definition architecture_keys (architecture : string) : list string :=
  if String.eqb architecture "PRQ" then ["tails"; "num_bins"; "tail_bound"]
  else if String.eqb architecture "UMNN"
       then ["integrand_net_layers"; "cond_size"; "nb_steps"]
       else [].

(** A transform whose pass from data to noise neither reads nor advances
    the generator: a fixed transform, or a network without active
    dropout. *)
Definition quiet (t : Transform) : Prop :=
  ∀ x c, ∃ r, ∀ g, forward t x c g = (r, g).

(** A stored permutation has [n] entries; holds of every other transform. *)
Definition permutes (n : nat) (t : Transform) : Prop :=
  match t with
  | RandomPermutation _ p => length p = n
  | _ => True
  end.

End Vocabulary.

(** ** Properties *)

(** *** The monad *)

Section MonadFacts.
Context `{L : FlowLibrary}.

Lemma bind_Ok {A B} (m : M A) (k : A → M B) g b g' :
  bind m k g = (Ok b, g') →
  ∃ a g1, m g = (Ok a, g1) ∧ k a g1 = (Ok b, g').
Proof.
  unfold bind. destruct (m g) as [[a|e] g1]; [eauto | discriminate].
Qed.

Lemma bind_Ok_intro {A B} (m : M A) (k : A → M B) g a g1 :
  m g = (Ok a, g1) → bind m k g = k a g1.
Proof. unfold bind. by intros ->. Qed.

Lemma bind_Raise {A B} (m : M A) (k : A → M B) g e g1 :
  m g = (Raise e, g1) → bind m k g = (Raise e, g1).
Proof. unfold bind. by intros ->. Qed.

Lemma bind_ext_Ok {A B} (m : M A) (k k' : A → M B) g :
  (∀ a g1, m g = (Ok a, g1) → k a g1 = k' a g1) →
  bind m k g = bind m k' g.
Proof. unfold bind. destruct (m g) as [[a|e] g1]; auto. Qed.

Lemma bind_cong_l {A B} (m m' : M A) (k : A → M B) g :
  m g = m' g → bind m k g = bind m' k g.
Proof. unfold bind. by intros ->. Qed.



End MonadFacts.

(** *** Keyword options *)

Lemma setdefault_lookup k v (kw : gmap string pyval) :
  setdefault k v kw !! k = Some (default v (kw !! k)).
Proof.
  unfold setdefault. destruct (kw !! k) eqn:E; simpl.
  - done.
  - apply lookup_insert_eq.
Qed.

Lemma setdefault_lookup_ne k k' v (kw : gmap string pyval) :
  k ≠ k' → setdefault k v kw !! k' = kw !! k'.
Proof.
  intros Hne. unfold setdefault. destruct (kw !! k); [done |].
  by apply lookup_insert_ne.
Qed.

(** Lookups in an accumulated option set, read off one update at a time. *)
Ltac options_lookup :=
  repeat first
    [ rewrite setdefault_lookup_ne by done
    | rewrite lookup_insert_ne by done
    | rewrite setdefault_lookup
    | rewrite lookup_insert_eq ].

Lemma MAF_options_class architecture kwargs :
  fst (MAF_options architecture kwargs) =
    if String.eqb architecture "PRQ"
    then MaskedPiecewiseRationalQuadraticAutoregressiveTransform
    else if String.eqb architecture "UMNN"
         then MaskedUMNNAutoregressiveTransform
         else MaskedAffineAutoregressiveTransform.
Proof. unfold MAF_options. by repeat case_match. Qed.

Lemma MAF_options_common architecture kwargs :
  let kw := snd (MAF_options architecture kwargs) in
  kw !! "hidden_features"
    = Some (default (PyInt 64) (kwargs !! "hidden_features")) ∧
  kw !! "num_blocks" = Some (default (PyInt 2) (kwargs !! "num_blocks")) ∧
  kw !! "use_residual_blocks"
    = Some (default (PyBool false) (kwargs !! "use_residual_blocks")) ∧
  kw !! "use_batch_norm"
    = Some (default (PyBool false) (kwargs !! "use_batch_norm")) ∧
  kw !! "activation"
    = Some (default (PyFunc "relu") (kwargs !! "activation")).
Proof.
  unfold MAF_options.
  destruct (String.eqb architecture "PRQ");
    [| destruct (String.eqb architecture "UMNN")]; simpl;
    repeat split; by options_lookup.
Qed.

Lemma MAF_options_PRQ kwargs :
  let kw := snd (MAF_options "PRQ" kwargs) in
  fst (MAF_options "PRQ" kwargs)
    = MaskedPiecewiseRationalQuadraticAutoregressiveTransform ∧
  kw !! "tails" = Some (PyStr "linear") ∧
  kw !! "num_bins" = Some (default (PyInt 8) (kwargs !! "num_bins")) ∧
  kw !! "tail_bound" = Some (default (PyFloat 1) (kwargs !! "tail_bound")).
Proof.
  unfold MAF_options. simpl. repeat split; by options_lookup.
Qed.

Lemma MAF_options_fallthrough architecture kwargs :
  architecture ≠ "PRQ" → architecture ≠ "UMNN" →
  MAF_options architecture kwargs = MAF_options "affine" kwargs.
Proof.
  intros H1 H2. unfold MAF_options.
  apply String.eqb_neq in H1, H2. by rewrite H1, H2.
Qed.

(** *** The transform list built by MAF *)

Section MAFFacts.
Context `{L : FlowLibrary}.

Lemma new_autoregressive_Ok tf x y kw g t g' :
  new_autoregressive tf x y kw g = (Ok t, g') →
  ∃ θ, t = AutoregressiveTransform tf x y kw θ ∧
       ar_init tf x y kw g = (Ok θ, g').
Proof.
  unfold new_autoregressive.
  destruct (kw !! "features"), (kw !! "context_features"); try discriminate.
  intros (θ & g1 & E & [= <- <-])%bind_Ok. eauto.
Qed.

Lemma new_permutation_Ok x g t g' :
  new_permutation x g = (Ok t, g') →
  ∃ p, t = RandomPermutation x p ∧ Permutation p (seq 0 x).
Proof.
  intros (p & g1 & E & [= <- <-])%bind_Ok.
  exists p. split; [done |]. by eapply randperm_Permutation.
Qed.


Lemma blocks_count tf x y kw n ts :
  blocks tf x y kw n ts → length (List.filter autoregressive ts) = n.
Proof.
  revert ts. induction n as [|n IH]; simpl; intros ts.
  - by intros ->.
  - intros (θ & p & rest & -> & _ & Hrest). simpl. by rewrite (IH _ Hrest).
Qed.

Lemma blocks_elem_of tf x y kw n ts t :
  blocks tf x y kw n ts → t ∈ ts →
  (∃ θ, t = AutoregressiveTransform tf x y kw θ) ∨
  (∃ p, t = RandomPermutation x p ∧ Permutation p (seq 0 x)).
Proof.
  revert ts. induction n as [|n IH]; simpl; intros ts.
  - intros ->. by intros ?%elem_of_nil.
  - intros (θ & p & rest & -> & Hp & Hrest).
    rewrite !elem_of_cons. intros [-> | [-> | Hin]]; eauto.
Qed.

Lemma MAF_loop_Ok tf x y kw n acc g ts g' :
  MAF_loop tf x y kw n acc g = (Ok ts, g') →
  ∃ bl, ts = acc ++ bl ∧ blocks tf x y kw n bl.
Proof.
  revert acc g. induction n as [|n IH]; simpl; intros acc g.
  - intros [= <- <-]. exists []. by rewrite app_nil_r.
  - intros (t & g1 & Ht & (q & g2 & Hq & Hloop)%bind_Ok)%bind_Ok.
    apply new_autoregressive_Ok in Ht as (θ & -> & _).
    apply new_permutation_Ok in Hq as (p & -> & Hp).
    apply IH in Hloop as (bl & -> & Hbl).
    eexists. split; [by rewrite <- app_assoc |].
    simpl. eauto 10.
Qed.


Lemma new_affine_run shift scale g :
  new_affine shift scale g
  = match affine_init shift scale with
    | Ok _ => (Ok (PointwiseAffineTransform shift scale), g)
    | Raise e => (Raise e, g)
    end.
Proof.
  unfold new_affine, bind, lift, ret. by destruct (affine_init shift scale).
Qed.

Lemma MAF_standardize_Ok moments g pre g' :
  MAF_standardize moments g = (Ok pre, g') →
  g' = g ∧
  match moments with
  | Some (shift, scale) =>
      ∃ offset, tdiv (tneg shift) scale = Ok offset ∧
                pre = [PointwiseAffineTransform offset (trecip scale)]
  | None => pre = []
  end.
Proof.
  destruct moments as [[shift scale]|]; simpl.
  - intros (offset & g1 & E & (t & g2 & Ht & [= <- <-])%bind_Ok)%bind_Ok.
    unfold lift in E. injection E as E <-.
    rewrite new_affine_run in Ht.
    destruct (affine_init offset (trecip scale)); [| done].
    injection Ht as <- <-. eauto.
  - by intros [= <- <-].
Qed.

(** The standardization step leaves the generator alone and does not
    depend on it. *)
Lemma MAF_standardize_run moments :
  ∃ r, ∀ g0, MAF_standardize moments g0 = (r, g0).
Proof.
  destruct moments as [[shift scale]|]; simpl; [| by eexists].
  unfold bind, lift. destruct (tdiv (tneg shift) scale) as [offset|e].
  - destruct (affine_init offset (trecip scale)) eqn:E.
    + eexists. intros g0. rewrite new_affine_run, E. done.
    + eexists. intros g0. rewrite new_affine_run, E. done.
  - by eexists.
Qed.

(** With moments of one shape, the step is the constructor call. *)
Lemma MAF_standardize_Some shift scale g :
  shape shift = shape scale →
  MAF_standardize (Some (shift, scale)) g
  = match affine_init
            (mkTensor (shape shift)
               (zip_with (λ s c, - s / c)%R (data shift) (data scale)))
            (trecip scale) with
    | Ok _ =>
        (Ok [PointwiseAffineTransform
               (mkTensor (shape shift)
                  (zip_with (λ s c, - s / c)%R (data shift) (data scale)))
               (trecip scale)], g)
    | Raise e => (Raise e, g)
    end.
Proof.
  intros Hs. unfold MAF_standardize, bind, lift, tdiv, tneg. simpl.
  rewrite decide_True by done. rewrite zip_with_fmap_l, new_affine_run.
  by destruct (affine_init _ _).
Qed.

(** What a successful construction returns. *)
Lemma MAF_Ok x y architecture n moments kwargs g flow g' :
  MAF x y architecture n moments kwargs g = (Ok flow, g') →
  ∃ pre bl,
    MAF_standardize moments g = (Ok pre, g) ∧
    flow = mkFlow (pre ++ bl) (StandardNormal [x]) ∧
    blocks (MAF_options architecture kwargs).1 x y
           (MAF_options architecture kwargs).2 (Z.to_nat n) bl.
Proof.
  unfold MAF. destruct (MAF_options architecture kwargs) as [tf kw]. simpl.
  intros (pre & g1 & Hpre & (ts & g2 & Hloop & [= <- <-])%bind_Ok)%bind_Ok.
  destruct (MAF_standardize_Ok _ _ _ _ Hpre) as [-> _].
  apply MAF_loop_Ok in Hloop as (bl & -> & Hbl). eauto.
Qed.

(** Every autoregressive transform of a constructed flow carries the
    selected class, the two sizes and the accumulated options. *)
Lemma MAF_autoregressive x y architecture n moments kwargs g flow g' :
  MAF x y architecture n moments kwargs g = (Ok flow, g') →
  ∀ tf f c kw θ,
    AutoregressiveTransform tf f c kw θ ∈ transforms flow →
    tf = (MAF_options architecture kwargs).1 ∧ f = x ∧ c = y ∧
    kw = (MAF_options architecture kwargs).2.
Proof.
  intros (pre & bl & Hpre & -> & Hbl)%MAF_Ok tf f c kw θ. simpl.
  apply MAF_standardize_Ok in Hpre as [_ Hpre].
  rewrite elem_of_app. intros [Hin | Hin].
  - destruct moments as [[shift scale]|].
    + destruct Hpre as (offset & _ & ->).
      by apply list_elem_of_singleton in Hin.
    + subst pre. by apply elem_of_nil in Hin.
  - destruct (blocks_elem_of _ _ _ _ _ _ _ Hbl Hin) as [[θ' E] | (p & E & _)];
      by simplify_eq.
Qed.

End MAFFacts.

(** *** Claims about the construction *)

Section MAFClaims.
Context `{L : FlowLibrary}.

Lemma MAF_receives x y architecture n moments kwargs g flow g'
    (P : TransformClass → nat → nat → gmap string pyval → Prop) :
  MAF x y architecture n moments kwargs g = (Ok flow, g') →
  P (MAF_options architecture kwargs).1 x y
    (MAF_options architecture kwargs).2 →
  Forall (receives P) (transforms flow).
Proof.
  intros HM HP. apply Forall_forall. intros [| tf f c kw θ |] Hin; try done.
  destruct (MAF_autoregressive _ _ _ _ _ _ _ _ _ HM _ _ _ _ _ Hin)
    as (-> & -> & -> & ->).
  exact HP.
Qed.


(** The affine map with offset [-shift / scale] and scale [1 / scale] is
    the standardization [(x - shift) / scale]. *)
Lemma affine_standardize (x shift scale : list R) :
  zip_with Rplus (zip_with Rmult x ((λ c, 1 / c)%R <$> scale))
                 (zip_with (λ s c, - s / c)%R shift scale)
  = standardize x shift scale.
Proof.
  unfold standardize. revert shift scale.
  induction x as [|v x IH]; intros [|s shift] [|c scale]; simpl; try done.
  f_equal; [| apply IH]. unfold Rdiv, Rminus. ring.
Qed.

Lemma tdiv_tneg_Ok shift scale offset :
  tdiv (tneg shift) scale = Ok offset →
  shape shift = shape scale ∧
  offset = mkTensor (shape shift)
             (zip_with (λ s c, - s / c)%R (data shift) (data scale)).
Proof.
  unfold tdiv, tneg. simpl. case_decide; [| done].
  intros [= <-]. split; [done |]. f_equal.
  by rewrite zip_with_fmap_l.
Qed.

(** C3. With moments [(shift, scale)], the first entry of the transform
    list is the fixed pointwise affine transform with offset
    [-shift / scale] and scale [1 / scale]; everything after it is the
    stack of learnable blocks; and on an item as long as the moments the
    transform computes [(x - shift) / scale], the generator left alone. *)
Theorem MAF_standardization_first x_size y_size architecture num_transforms
    shift scale kwargs g flow g' :
  MAF x_size y_size architecture num_transforms (Some (shift, scale)) kwargs g
    = (Ok flow, g') →
  ∃ offset rest,
    transforms flow
      = PointwiseAffineTransform offset (trecip scale) :: rest ∧
    offset = mkTensor (shape shift)
               (zip_with (λ s c, - s / c)%R (data shift) (data scale)) ∧
    trecip scale = mkTensor (shape scale) ((λ c, 1 / c)%R <$> data scale) ∧
    blocks (MAF_options architecture kwargs).1 x_size y_size
           (MAF_options architecture kwargs).2
           (Z.to_nat num_transforms) rest ∧
    ∀ x c g0,
      length x = length (data shift) →
      length (data scale) = length (data shift) →
      ∃ logabsdet,
        forward (PointwiseAffineTransform offset (trecip scale)) x c g0
          = (Ok (standardize x (data shift) (data scale), logabsdet), g0).
Proof.
  intros (pre & bl & Hpre & -> & Hbl)%MAF_Ok.
  apply MAF_standardize_Ok in Hpre as [_ (offset & Hoff & ->)].
  apply tdiv_tneg_Ok in Hoff as [Hshape ->].
  eexists _, bl. repeat split; [done |].
  intros x c g0 Hx Hs. eexists. unfold forward, lift. simpl.
  rewrite decide_True.
  - by rewrite affine_standardize.
  - rewrite length_fmap, length_zip_with. lia.
Qed.

(** C4. A tag other than ['PRQ'] and ['UMNN'] selects the masked affine
    autoregressive class, and the whole construction then runs exactly as
    with ['affine']: same outcome (flow or exception) and same generator
    state. *)
Theorem MAF_unknown_tag_is_affine x_size y_size architecture num_transforms
    moments kwargs g :
  architecture ≠ "PRQ" → architecture ≠ "UMNN" →
  (MAF_options architecture kwargs).1 = MaskedAffineAutoregressiveTransform ∧
  MAF x_size y_size architecture num_transforms moments kwargs g
    = MAF x_size y_size "affine" num_transforms moments kwargs g.
Proof.
  intros H1 H2. unfold MAF.
  by rewrite (MAF_options_fallthrough _ _ H1 H2).
Qed.

(** C5. With ['PRQ'], every autoregressive transform of the constructed
    flow is of the rational-quadratic class and was given [tails='linear']
    whatever the caller passed for [tails], and [num_bins] and [tail_bound]
    as passed by the caller, 8 and 1.0 when not passed. *)
Theorem MAF_PRQ_options x_size y_size num_transforms moments kwargs g
    flow g' :
  MAF x_size y_size "PRQ" num_transforms moments kwargs g = (Ok flow, g') →
  Forall (receives (λ tf _ _ kw,
            tf = MaskedPiecewiseRationalQuadraticAutoregressiveTransform ∧
            kw !! "tails" = Some (PyStr "linear") ∧
            kw !! "num_bins"
              = Some (default (PyInt 8) (kwargs !! "num_bins")) ∧
            kw !! "tail_bound"
              = Some (default (PyFloat 1) (kwargs !! "tail_bound"))))
         (transforms flow).
Proof.
  intros HM. eapply MAF_receives; [exact HM |].
  apply MAF_options_PRQ.
Qed.

(** C6. Whatever the architecture tag, every autoregressive transform of
    the constructed flow was given [hidden_features], [num_blocks],
    [use_residual_blocks], [use_batch_norm] and [activation] as passed by
    the caller, and 64, 2, False, False and ReLU for those not passed. *)
Theorem MAF_common_options x_size y_size architecture num_transforms moments
    kwargs g flow g' :
  MAF x_size y_size architecture num_transforms moments kwargs g
    = (Ok flow, g') →
  Forall (receives (λ _ _ _ kw,
            kw !! "hidden_features"
              = Some (default (PyInt 64) (kwargs !! "hidden_features")) ∧
            kw !! "num_blocks"
              = Some (default (PyInt 2) (kwargs !! "num_blocks")) ∧
            kw !! "use_residual_blocks"
              = Some (default (PyBool false)
                        (kwargs !! "use_residual_blocks")) ∧
            kw !! "use_batch_norm"
              = Some (default (PyBool false) (kwargs !! "use_batch_norm")) ∧
            kw !! "activation"
              = Some (default (PyFunc "relu") (kwargs !! "activation"))))
         (transforms flow).
Proof.
  intros HM. eapply MAF_receives; [exact HM |].
  apply MAF_options_common.
Qed.

(** C10. One construction creates [num_transforms] autoregressive
    transforms, and all of them were given the same class,
    [features = x_size], [context_features = y_size] and the same
    accumulated options. *)
Theorem MAF_blocks_share_options x_size y_size architecture num_transforms
    moments kwargs g flow g' :
  MAF x_size y_size architecture num_transforms moments kwargs g
    = (Ok flow, g') →
  length (List.filter autoregressive (transforms flow))
    = Z.to_nat num_transforms ∧
  Forall (receives (λ tf features context_features kw,
            tf = (MAF_options architecture kwargs).1 ∧
            features = x_size ∧ context_features = y_size ∧
            kw = (MAF_options architecture kwargs).2))
         (transforms flow).
Proof.
  intros HM. split; [| by eapply MAF_receives].
  destruct (MAF_Ok _ _ _ _ _ _ _ _ _ HM) as (pre & bl & Hpre & -> & Hbl).
  apply MAF_standardize_Ok in Hpre as [_ Hpre]. simpl.
  rewrite List.filter_app, length_app, (blocks_count _ _ _ _ _ _ Hbl).
  destruct moments as [[shift scale]|].
  - by destruct Hpre as (offset & _ & ->).
  - by subst pre.
Qed.

End MAFClaims.

(** *** Shapes of samples *)

Section SampleFacts.
Context `{L : FlowLibrary}.

Lemma numel_app (s1 s2 : list nat) : numel (s1 ++ s2) = numel s1 * numel s2.
Proof.
  unfold numel. induction s1 as [|n s1 IH]; simpl; [lia |].
  rewrite IH. lia.
Qed.

Lemma length_chunks n k l : length (chunks n k l) = n.
Proof. revert l. induction n as [|n IH]; simpl; intros l; [done |]. by rewrite IH. Qed.

Lemma rows_Ok t xs :
  rows t = Ok xs →
  ∃ b s, shape t = b :: s ∧ length xs = b ∧
         xs = mkTensor s <$> chunks b (numel s) (data t).
Proof.
  unfold rows. destruct (shape t) as [|b s]; [done |].
  intros [= <-]. exists b, s. by rewrite length_fmap, length_chunks.
Qed.

(** The flow container returns [num_samples] items for each item of the
    context batch. *)
Lemma Flow_sample_shape self n c g x g' :
  Flow_sample self n c g = (Ok x, g') →
  ∃ b s, shape c = b :: s ∧ shape x = [b; n] ++ event_shape (base self).
Proof.
  unfold Flow_sample.
  intros (cs & g1 & Hcs & (noise & g2 & _ & (xs & g3 & _ & [= <- _])%bind_Ok)
            %bind_Ok)%bind_Ok.
  unfold lift in Hcs. injection Hcs as Hcs _.
  apply rows_Ok in Hcs as (b & s & Hc & Hlen & _).
  exists b, s. simpl. by rewrite Hlen.
Qed.

(** For a context whose leading dimensions hold one item in all (a single
    context vector in particular), a sample drawn by the flow container is
    returned under the shape [y.shape[:-1] + shape + (x_size,)]. *)
Lemma sample_shape self y shape' d g x g1 :
  base self = StandardNormal [d] →
  numel (init_slice (shape y)) = 1 →
  Flow_sample self (numel shape') (unsqueeze0 y) g = (Ok x, g1) →
  ∃ x', sample self y shape' g = (Ok x', g1) ∧
        shape x' = init_slice (shape y) ++ shape' ++ [d] ∧
        data x' = data x.
Proof.
  intros Hbase Hone Hx. unfold sample.
  rewrite (bind_Ok_intro _ _ _ _ _ Hx).
  destruct (Flow_sample_shape _ _ _ _ _ _ Hx) as (b & s & [= <- <-] & Hsh).
  rewrite Hbase in Hsh. simpl in Hsh. rewrite Hsh.
  unfold bind, lift, view. rewrite Hsh.
  replace (last_slice [1; numel shape'; d]) with [d] by done.
  rewrite !numel_app, Hone.
  replace (numel [1; numel shape'; d]) with (numel shape' * numel [d])
    by (simpl; lia).
  rewrite Nat.mul_1_l, Nat.eqb_refl. simpl. eauto.
Qed.

(** C1. For a context with a batch of more or fewer than one item (the
    leading dimensions [y.shape[:-1]] do not multiply to one) and a
    non-empty request, [sample] returns no tensor: the flow container is
    given [y[None]], a batch of one context, so the samples of one context
    cannot fill the shape [y.shape[:-1] + shape + (x_size,)]. *)
Theorem sample_batched_context_raises self y shape' d g :
  base self = StandardNormal [d] →
  numel (init_slice (shape y)) ≠ 1 →
  numel shape' * d ≠ 0 →
  is_ok (sample self y shape' g).1 = false.
Proof.
  intros Hbase Hbatch Hne. unfold sample.
  destruct (Flow_sample self (numel shape') (unsqueeze0 y) g)
    as [[x|e] g1] eqn:Hx.
  - rewrite (bind_Ok_intro _ _ _ _ _ Hx).
    destruct (Flow_sample_shape _ _ _ _ _ _ Hx) as (b & s & [= <- <-] & Hsh).
    rewrite Hbase in Hsh. simpl in Hsh.
    unfold bind, lift, view. rewrite Hsh.
    replace (last_slice [1; numel shape'; d]) with [d] by done.
    rewrite !numel_app.
    replace (numel [1; numel shape'; d]) with (numel shape' * numel [d])
      by (simpl; lia).
    destruct (Nat.eqb_spec
                (numel (init_slice (shape y)) * (numel shape' * numel [d]))
                (numel shape' * numel [d])) as [E|_]; [| done].
    exfalso. apply Hbatch.
    assert (numel [d] = d) as Hd by (simpl; lia). rewrite Hd in E. nia.
  - by rewrite (bind_Raise _ _ _ _ _ Hx).
Qed.

End SampleFacts.

(** *** The composite of a stack and the identity standardization *)

Section CompositeFacts.
Context `{L : FlowLibrary}.

Lemma chunks_lengths n k l :
  length l = n * k → Forall (λ c, length c = k) (chunks n k l).
Proof.
  revert l. induction n as [|n IH]; simpl; intros l Hl; constructor.
  - rewrite length_take. lia.
  - apply IH. rewrite length_drop. lia.
Qed.

Lemma mapM_ext_Forall {A B} (f f' : A → M B) (l : list A) :
  Forall (λ a, ∀ g, f a g = f' a g) l → ∀ g, mapM f l g = mapM f' l g.
Proof.
  induction 1 as [|a l Ha _ IH]; simpl; intros g; [done |].
  unfold bind. rewrite Ha. destruct (f' a g) as [[b|e] g1]; [| done].
  by rewrite IH.
Qed.

Lemma mapM_Ok_fmap {A B} (f : A → M B) (h : A → B) (l : list A) :
  Forall (λ a, ∀ g, f a g = (Ok (h a), g)) l →
  ∀ g, mapM f l g = (Ok (h <$> l), g).
Proof.
  induction 1 as [|a l Ha _ IH]; simpl; intros g; [done |].
  unfold bind. by rewrite Ha, IH.
Qed.

Lemma mapM_run {A B} (f : A → M B) (l : list A) :
  Forall (λ a, ∃ r, ∀ g, f a g = (r, g)) l →
  ∃ r, ∀ g, mapM f l g = (r, g).
Proof.
  induction 1 as [|a l [r Ha] _ [rs IH]]; simpl; [by eexists |].
  destruct r as [b|e].
  - destruct rs as [bs|e].
    + exists (Ok (b :: bs)). intros g. unfold bind. by rewrite Ha, IH.
    + exists (Raise e). intros g. unfold bind. by rewrite Ha, IH.
  - exists (Raise e). intros g. unfold bind. by rewrite Ha.
Qed.

Lemma Forall_zip_l {A B} (P : A → Prop) (l : list A) (k : list B) :
  Forall P l → Forall (λ ab, P ab.1) (zip l k).
Proof.
  intros Hl. revert k. induction Hl as [|a l Ha _ IH]; intros [|b k];
    simpl; constructor; auto.
Qed.

Lemma cascade_app step (ts1 ts2 : list Transform) x c g :
  cascade step (ts1 ++ ts2) x c g
  = (let! '(x1, l1) := cascade step ts1 x c in
     let! '(x2, l2) := cascade step ts2 x1 c in
     ret (x2, (l1 + l2)%R)) g.
Proof.
  revert x g. induction ts1 as [|t ts1 IH]; simpl; intros x g.
  - unfold bind, ret.
    destruct (cascade step ts2 x c g) as [[[x2 l2]|e] g1]; [| done].
    by rewrite Rplus_0_l.
  - unfold bind, ret in *.
    destruct (step t x c g) as [[[x1 l1]|e] g1]; [| done].
    rewrite IH.
    destruct (cascade step ts1 x1 c g1) as [[[x2 l2]|e] g2]; [| done].
    destruct (cascade step ts2 x2 c g2) as [[[x3 l3]|e] g3]; [| done].
    by rewrite Rplus_assoc.
Qed.

Lemma inverse_length t z c g x l g' :
  inverse t z c g = (Ok (x, l), g') → length x = length z.
Proof.
  destruct t as [shift scale | tf n m kw θ | n p]; simpl; unfold lift.
  - case_decide as H; [| done]. intros [= <- _ _].
    rewrite !length_zip_with. lia.
  - apply ar_inverse_length.
  - case_decide as H; [| done]. intros [= <- _ _].
    by rewrite length_fmap, length_seq.
Qed.

Lemma cascade_inverse_length ts z c g x l g' :
  cascade inverse ts z c g = (Ok (x, l), g') → length x = length z.
Proof.
  revert z g x l g'. induction ts as [|t ts IH]; simpl; intros z g x l g'.
  - by intros [= <- _ _].
  - unfold bind, ret.
    destruct (inverse t z c g) as [[[x1 l1]|e] g1] eqn:E1; [| done].
    destruct (cascade inverse ts x1 c g1) as [[[x2 l2]|e] g2] eqn:E2;
      [| done].
    intros [= <- _ _]. apply IH in E2. apply inverse_length in E1. lia.
Qed.

Lemma standardize_zeros_ones n g :
  MAF_standardize (Some (zeros n, ones n)) g
  = (Ok [identity_standardization n], g).
Proof.
  rewrite MAF_standardize_Some by done. unfold zeros, ones, trecip. simpl.
  rewrite fmap_replicate, zip_with_replicate.
  rewrite affine_init_positive; [done |]. simpl.
  apply Forall_replicate. lra.
Qed.

Lemma affine_identity (x : list R) n :
  length x = n →
  zip_with Rplus (zip_with Rmult x (replicate n (1 / 1)%R))
                 (replicate n (- 0 / 1)%R) = x.
Proof.
  intros <-. induction x as [|v x IH]; simpl; [done |].
  f_equal; [field | exact IH].
Qed.

Lemma affine_inverse_identity (z : list R) n :
  length z = n →
  zip_with Rdiv (zip_with Rminus z (replicate n (- 0 / 1)%R))
                (replicate n (1 / 1)%R) = z.
Proof.
  intros <-. induction z as [|v z IH]; simpl; [done |].
  f_equal; [field | exact IH].
Qed.

Lemma Rsum_ln_ones n : Rsum (ln <$> replicate n (1 / 1)%R) = 0%R.
Proof.
  rewrite fmap_replicate. replace (1 / 1)%R with 1%R by field.
  rewrite ln_1. unfold Rsum.
  induction n as [|n IH]; simpl; [done |]. rewrite IH. lra.
Qed.

Lemma forward_identity_standardization n x c g :
  length x = n →
  forward (identity_standardization n) x c g = (Ok (x, 0%R), g).
Proof.
  intros Hx. unfold forward, lift. simpl. rewrite !length_replicate.
  rewrite decide_True by done.
  by rewrite affine_identity, Rsum_ln_ones.
Qed.

Lemma inverse_identity_standardization n z c g :
  length z = n →
  inverse (identity_standardization n) z c g = (Ok (z, (- 0)%R), g).
Proof.
  intros Hz. unfold inverse, lift. simpl. rewrite !length_replicate.
  rewrite decide_True by done.
  by rewrite affine_inverse_identity, Rsum_ln_ones.
Qed.

(** Data to noise, the identity standardization in front changes nothing. *)
Lemma composite_forward_identity n ts x c g :
  length x = n →
  composite_forward (identity_standardization n :: ts) x c g
  = composite_forward ts x c g.
Proof.
  intros Hx. unfold composite_forward.
  change (cascade forward (identity_standardization n :: ts) x c g)
    with ((let! '(x1, l1) := forward (identity_standardization n) x c in
           let! '(x2, l2) := cascade forward ts x1 c in
           ret (x2, (l1 + l2)%R)) g).
  unfold bind, ret.
  rewrite (forward_identity_standardization n x c g Hx).
  destruct (cascade forward ts x c g) as [[[x2 l2]|e] g1]; [| done].
  by rewrite Rplus_0_l.
Qed.

(** Noise to data, it changes the log-Jacobian term by [-0] only. *)
Lemma composite_inverse_identity n ts z c g :
  length z = n →
  (let! '(x, _) := composite_inverse (identity_standardization n :: ts) z c in
   ret x) g
  = (let! '(x, _) := composite_inverse ts z c in ret x) g.
Proof.
  intros Hz. unfold composite_inverse. simpl rev.
  unfold bind at 1. rewrite cascade_app. unfold bind, ret.
  destruct (cascade inverse (rev ts) z c g) as [[[x1 l1]|e] g1] eqn:E;
    [| done].
  apply cascade_inverse_length in E.
  cbn [cascade]. unfold bind, ret.
  rewrite inverse_identity_standardization by lia. done.
Qed.

(** A stack of quiet transforms is quiet. *)
Lemma cascade_quiet ts :
  Forall quiet ts → ∀ x c, ∃ r, ∀ g, cascade forward ts x c g = (r, g).
Proof.
  induction 1 as [|t ts Ht _ IH]; simpl; intros x c; [by eexists |].
  destruct (Ht x c) as [[[x1 l1]|e] H1].
  - destruct (IH x1 c) as [[[x2 l2]|e] H2].
    + eexists. intros g. unfold bind, ret. by rewrite H1, H2.
    + eexists. intros g. unfold bind, ret. by rewrite H1, H2.
  - eexists. intros g. unfold bind. by rewrite H1.
Qed.

Lemma Flow_log_prob_quiet self x y :
  Forall quiet (transforms self) →
  ∃ r, ∀ g, Flow_log_prob self x y g = (r, g).
Proof.
  intros Hq. unfold Flow_log_prob, bind, lift, raise, ret.
  destruct (rows x) as [xs|e]; [| by eexists].
  destruct (rows y) as [cs|e]; [| by eexists].
  case_decide; [| by eexists].
  destruct (mapM_run
              (λ '(xi, ci),
                 let! '(z, logabsdet) :=
                   composite_forward (transforms self) (data xi) ci in
                 let! lp :=
                   lift (base_log_prob (base self) (mkTensor (shape xi) z)) in
                 ret (lp + logabsdet)%R)
              (zip xs cs)) as [r Hr].
  { apply Forall_forall. intros [xi ci] _.
    destruct (cascade_quiet _ Hq (data xi) ci) as [[[z l]|e] Hz].
    - destruct (base_log_prob (base self) (mkTensor (shape xi) z)) eqn:E.
      + eexists. intros g. unfold bind, lift, ret, composite_forward.
        by rewrite Hz, E.
      + eexists. intros g. unfold bind, lift, ret, composite_forward.
        by rewrite Hz, E.
    - eexists. intros g. unfold bind, composite_forward. by rewrite Hz. }
  destruct r as [lps|e].
  - eexists. intros g. unfold bind, ret in Hr. by rewrite Hr.
  - eexists. intros g. unfold bind, ret in Hr. by rewrite Hr.
Qed.

(** C8. [log_prob] draws nothing of its own: when the pass of every
    transform of the flow leaves the generator alone (no dropout, or the
    networks in evaluation mode), the same arguments give the same result
    from any two generator states, and the state is returned as it was. *)
Theorem log_prob_deterministic_without_dropout self x y g1 g2 :
  Forall quiet (transforms self) →
  (log_prob self x y g1).1 = (log_prob self x y g2).1 ∧
  (log_prob self x y g1).2 = g1.
Proof.
  intros Hq. unfold log_prob.
  destruct (Flow_log_prob_quiet self x y Hq) as [r Hr].
  by rewrite !Hr.
Qed.

End CompositeFacts.

(** *** Flows with an identity standardization, flows without blocks *)

Section FlowFacts.
Context `{L : FlowLibrary}.

(** The items of a well-shaped batch of [n]-vectors. *)
Lemma rows_batch x b n :
  shape x = [b; n] → well_shaped x →
  ∃ xs, rows x = Ok xs ∧ length xs = b ∧
        xs = mkTensor [n] <$> chunks b n (data x) ∧
        Forall (λ xi, shape xi = [n] ∧ length (data xi) = n) xs.
Proof.
  intros Hs Hw. unfold rows. rewrite Hs.
  replace (numel [n]) with n by (simpl; lia).
  eexists. split; [done |].
  rewrite length_fmap, length_chunks. repeat split.
  apply Forall_fmap. unfold well_shaped in Hw. rewrite Hs in Hw.
  eapply Forall_impl; [apply (chunks_lengths b n) |].
  - simpl in Hw. lia.
  - by intros c Hc.
Qed.

Lemma MAF_loop_acc tf x y kw n acc g :
  MAF_loop tf x y kw n acc g
  = match MAF_loop tf x y kw n [] g with
    | (Ok bl, g') => (Ok (acc ++ bl), g')
    | (Raise e, g') => (Raise e, g')
    end.
Proof.
  revert acc g. induction n as [|n IH]; simpl; intros acc g.
  - unfold ret. by rewrite app_nil_r.
  - unfold bind.
    destruct (new_autoregressive tf x y kw g) as [[t|e] g1]; [| done].
    destruct (new_permutation x g1) as [[p|e] g2]; [| done].
    rewrite (IH (acc ++ [t; p])), (IH ([] ++ [t; p])).
    destruct (MAF_loop tf x y kw n [] g2) as [[bl|e] g3]; [| done].
    by rewrite <- app_assoc.
Qed.

Lemma Flow_log_prob_identity n ts d x y b g :
  shape x = [b; n] → well_shaped x →
  Flow_log_prob (mkFlow (identity_standardization n :: ts) d) x y g
  = Flow_log_prob (mkFlow ts d) x y g.
Proof.
  intros Hs Hw. unfold Flow_log_prob. simpl.
  destruct (rows_batch x b n Hs Hw) as (xs & Hrx & _ & _ & Hxs).
  apply bind_ext_Ok. intros xs' g1. unfold lift. rewrite Hrx.
  intros [= <- <-].
  apply bind_ext_Ok. intros cs g2 _.
  case_decide; [| done].
  apply bind_cong_l. apply mapM_ext_Forall.
  eapply Forall_impl; [apply (Forall_zip_l _ xs cs Hxs) |].
  intros [xi ci] [_ Hlen] g0. simpl in *.
  apply bind_cong_l. by apply composite_forward_identity.
Qed.

Lemma Flow_sample_identity n ts k c g :
  Flow_sample (mkFlow (identity_standardization n :: ts) (StandardNormal [n]))
              k c g
  = Flow_sample (mkFlow ts (StandardNormal [n])) k c g.
Proof.
  unfold Flow_sample. simpl.
  apply bind_ext_Ok. intros cs g1 _.
  apply bind_ext_Ok. intros noise g2 E. apply randn_length in E.
  apply bind_cong_l. apply mapM_ext_Forall.
  eapply Forall_impl;
    [apply Forall_zip_l, (chunks_lengths (length cs * k) (n * 1)); lia |].
  intros [z c0] Hz g0. simpl in Hz.
  apply composite_inverse_identity. lia.
Qed.

(** The standardization transform on an item as long as the moments. *)
Lemma forward_standardization shift scale x c g :
  length x = length (data shift) →
  length (data scale) = length (data shift) →
  forward (PointwiseAffineTransform
             (mkTensor (shape shift)
                (zip_with (λ s c, - s / c)%R (data shift) (data scale)))
             (trecip scale)) x c g
  = (Ok (standardize x (data shift) (data scale),
         Rsum (ln <$> ((λ c, 1 / c)%R <$> data scale))), g).
Proof.
  intros Hx Hs. unfold forward, lift. simpl.
  rewrite decide_True by (rewrite length_fmap, length_zip_with; lia).
  by rewrite affine_standardize.
Qed.

Lemma cascade_one step t x c g x1 l1 g1 :
  step t x c g = (Ok (x1, l1), g1) →
  cascade step [t] x c g = (Ok (x1, (l1 + 0)%R), g1).
Proof. intros H. simpl. unfold bind, ret. by rewrite H. Qed.

(** C7. When a construction without moments returns a flow, the same
    construction from the same generator state with all-zero shifts and
    all-one scales returns, in the same final state, that flow with the
    identity standardization in front: same learnable parameters, same
    permutations, same base; the two flows give the same log-densities on
    every batch of [x_size]-vectors and the same samples. *)
Theorem MAF_identity_moments x_size y_size architecture num_transforms
    kwargs g flow g' :
  MAF x_size y_size architecture num_transforms None kwargs g
    = (Ok flow, g') →
  ∃ flow0,
    MAF x_size y_size architecture num_transforms
        (Some (zeros x_size, ones x_size)) kwargs g = (Ok flow0, g') ∧
    transforms flow0 = identity_standardization x_size :: transforms flow ∧
    base flow0 = base flow ∧
    (∀ x y b g1,
       shape x = [b; x_size] → well_shaped x →
       log_prob flow0 x y g1 = log_prob flow x y g1) ∧
    (∀ y shape' g1, sample flow0 y shape' g1 = sample flow y shape' g1).
Proof.
  unfold MAF. destruct (MAF_options architecture kwargs) as [tf kw].
  rewrite (bind_Ok_intro _ _ _ _ _ (standardize_zeros_ones x_size g)).
  simpl MAF_standardize.
  unfold bind, ret, NormalizingFlow_init.
  rewrite (MAF_loop_acc _ _ _ _ _ [identity_standardization x_size]).
  destruct (MAF_loop tf x_size y_size kw (Z.to_nat num_transforms) [] g)
    as [[bl|e] g1]; [| done].
  intros [= <- <-]. eexists. split; [done |]. simpl.
  repeat split.
  - intros x y b g2 Hs Hw. unfold log_prob.
    by rewrite (Flow_log_prob_identity _ _ _ _ _ b).
  - intros y shape' g2. unfold sample, bind.
    by rewrite Flow_sample_identity.
Qed.

(** C9. With [num_transforms = 0], when the library accepts the
    standardization transform of the moments (or there are none), the
    construction returns, without touching the generator, a flow whose
    transform list holds the standardization transform alone (nothing
    without moments); on a batch of [x_size]-vectors and any context batch
    with as many items its [log_prob] is, item by item, the standard-normal
    log-density of the standardized item with the constant log-Jacobian of
    the standardization, whatever the context holds. *)
Theorem MAF_without_transforms x_size y_size architecture moments kwargs g :
  accepts (MAF_standardize moments) →
  ∃ flow,
    MAF x_size y_size architecture 0 moments kwargs g = (Ok flow, g) ∧
    length (transforms flow) = (if moments is Some _ then 1 else 0) ∧
    Forall (λ t, ∃ a b, t = PointwiseAffineTransform a b)
           (transforms flow) ∧
    ∀ x y b s g1,
      shape x = [b; x_size] → well_shaped x → shape y = b :: s →
      (∀ shift scale, moments = Some (shift, scale) →
         length (data shift) = x_size ∧ length (data scale) = x_size) →
      log_prob flow x y g1
      = (Ok (mkTensor [b] (standardized_log_density moments
                             <$> chunks b x_size (data x))), g1).
Proof.
  intros Hm.
  destruct (Hm g) as (pre & g0 & Hpre).
  destruct (MAF_standardize_Ok _ _ _ _ Hpre) as [-> Hpre'].
  exists (mkFlow pre (StandardNormal [x_size])). split.
  { unfold MAF. destruct (MAF_options architecture kwargs) as [tf kw].
    rewrite (bind_Ok_intro _ _ _ _ _ Hpre). done. }
  simpl. split; [| split].
  { destruct moments as [[shift scale]|];
      [by destruct Hpre' as (o & _ & ->) | by subst]. }
  { destruct moments as [[shift scale]|];
      [destruct Hpre' as (o & _ & ->) | subst]; repeat constructor; eauto. }
  intros x y b s g1 Hs Hw Hy Hlen. unfold log_prob, Flow_log_prob. simpl.
  destruct (rows_batch x b x_size Hs Hw) as (xs & Hrx & Hb & Exs & Hxs).
  rewrite (bind_Ok_intro _ _ g1 xs g1) by (unfold lift; by rewrite Hrx).
  rewrite (bind_Ok_intro _ _ g1
             (mkTensor s <$> chunks b (numel s) (data y)) g1)
    by (unfold lift, rows; by rewrite Hy).
  rewrite decide_True by (by rewrite length_fmap, length_chunks).
  rewrite (bind_Ok_intro _ _ g1
             ((λ p, standardized_log_density moments (data p.1))
                <$> zip xs (mkTensor s <$> chunks b (numel s) (data y))) g1).
  - unfold ret. rewrite Hb. do 3 f_equal.
    trans ((λ xi, standardized_log_density moments (data xi))
             <$> (zip xs (mkTensor s <$> chunks b (numel s) (data y))).*1);
      [by rewrite <- list_fmap_compose |].
    rewrite fst_zip by (rewrite length_fmap, length_chunks; lia).
    rewrite Exs, <- list_fmap_compose. done.
  - apply mapM_Ok_fmap.
    eapply Forall_impl; [apply (Forall_zip_l _ xs _ Hxs) |].
    intros [xi ci] [Hsh Hl] g2. simpl in *. unfold composite_forward.
    destruct moments as [[shift scale]|].
    + destruct Hpre' as (o & Ho & ->).
      apply tdiv_tneg_Ok in Ho as [_ ->].
      destruct (Hlen _ _ eq_refl) as [Hl1 Hl2].
      rewrite (bind_Ok_intro _ _ _ _ _
                 (cascade_one _ _ _ _ _ _ _ _
                    (forward_standardization shift scale (data xi) ci g2
                       ltac:(lia) ltac:(lia)))).
      unfold bind, lift, ret, base_log_prob. simpl.
      rewrite decide_True.
      * unfold standard_normal_log_density, standardize.
        rewrite !length_zip_with, Hl, Hl1, Hl2, !Nat.min_id, Nat.mul_1_r.
        do 2 f_equal. ring.
      * split; [done |]. unfold standardize.
        rewrite !length_zip_with. simpl. lia.
    + subst pre. simpl. unfold bind, lift, ret, base_log_prob. simpl.
      rewrite decide_True by (split; [done | simpl; lia]).
      unfold standard_normal_log_density.
      rewrite Hl, Nat.mul_1_r. do 2 f_equal. ring.
Qed.

End FlowFacts.

(** ** Further properties of the construction *)

Lemma setdefault_kept k k' v' (kw : gmap string pyval) v :
  kw !! k = Some v → setdefault k' v' kw !! k = Some v.
Proof.
  intros H. destruct (decide (k' = k)) as [-> | Hne].
  - by rewrite setdefault_lookup, H.
  - by rewrite setdefault_lookup_ne.
Qed.

Lemma setdefault_present k v (kw : gmap string pyval) :
  is_Some (kw !! k) → setdefault k v kw = kw.
Proof. intros [w H]. unfold setdefault. by rewrite H. Qed.

Lemma MAF_options_UMNN kwargs :
  let kw := snd (MAF_options "UMNN" kwargs) in
  fst (MAF_options "UMNN" kwargs) = MaskedUMNNAutoregressiveTransform ∧
  kw !! "integrand_net_layers"
    = Some (default (PyList [PyInt 64; PyInt 64; PyInt 64])
              (kwargs !! "integrand_net_layers")) ∧
  kw !! "cond_size" = Some (default (PyInt 32) (kwargs !! "cond_size")) ∧
  kw !! "nb_steps" = Some (default (PyInt 32) (kwargs !! "nb_steps")).
Proof.
  unfold MAF_options. simpl. repeat split; by options_lookup.
Qed.

Lemma MAF_options_kept architecture kwargs k v :
  kwargs !! k = Some v →
  (architecture = "PRQ" → k ≠ "tails") →
  (MAF_options architecture kwargs).2 !! k = Some v.
Proof.
  intros H Htails. unfold MAF_options.
  destruct (String.eqb_spec architecture "PRQ") as [E|_];
    [| destruct (String.eqb architecture "UMNN")]; simpl.
  - do 2 apply setdefault_kept.
    rewrite lookup_insert_ne by (intros <-; by apply Htails).
    by do 5 apply setdefault_kept.
  - by do 8 apply setdefault_kept.
  - by do 5 apply setdefault_kept.
Qed.

Lemma MAF_options_other architecture kwargs k :
  k ∉ common_keys ++ architecture_keys architecture →
  (MAF_options architecture kwargs).2 !! k = kwargs !! k.
Proof.
  unfold MAF_options, architecture_keys, common_keys.
  destruct (String.eqb architecture "PRQ");
    [| destruct (String.eqb architecture "UMNN")]; simpl;
    rewrite ?not_elem_of_cons; intros H; destruct_and!;
    by options_lookup.
Qed.

Lemma MAF_options_idempotent architecture kwargs :
  MAF_options architecture (MAF_options architecture kwargs).2
  = MAF_options architecture kwargs.
Proof.
  pose proof (MAF_options_common architecture kwargs) as Hc.
  pose proof (MAF_options_PRQ kwargs) as Hp.
  pose proof (MAF_options_UMNN kwargs) as Hu.
  pose proof (MAF_options_class architecture kwargs) as Hcl.
  destruct (MAF_options architecture kwargs) as [tf kw] eqn:E.
  simpl in Hc, Hcl. destruct Hc as (H1 & H2 & H3 & H4 & H5).
  unfold MAF_options at 1. simpl.
  rewrite (setdefault_present "hidden_features" _ kw) by eauto.
  rewrite (setdefault_present "num_blocks" _ kw) by eauto.
  rewrite (setdefault_present "use_residual_blocks" _ kw) by eauto.
  rewrite (setdefault_present "use_batch_norm" _ kw) by eauto.
  rewrite (setdefault_present "activation" _ kw) by eauto.
  destruct (String.eqb_spec architecture "PRQ") as [->|_].
  - rewrite E in Hp. simpl in Hp. destruct Hp as (_ & Ht & Hn & Hb).
    rewrite (insert_id kw "tails" _ Ht).
    rewrite (setdefault_present "num_bins" _ kw) by eauto.
    rewrite (setdefault_present "tail_bound" _ kw) by eauto.
    by rewrite Hcl.
  - destruct (String.eqb_spec architecture "UMNN") as [->|_].
    + rewrite E in Hu. simpl in Hu. destruct Hu as (_ & Hi & Hs & Hn).
      rewrite (setdefault_present "integrand_net_layers" _ kw) by eauto.
      rewrite (setdefault_present "cond_size" _ kw) by eauto.
      rewrite (setdefault_present "nb_steps" _ kw) by eauto.
      by rewrite Hcl.
    + by rewrite Hcl.
Qed.

Section MAFExtras.
Context `{L : FlowLibrary}.

(** X1. With ['UMNN'], every autoregressive transform of the constructed
    flow is of the monotonic-network class and was given
    [integrand_net_layers], [cond_size] and [nb_steps] as passed by the
    caller, [[64, 64, 64]], 32 and 32 when not passed. *)
Theorem MAF_UMNN_options x_size y_size num_transforms moments kwargs g
    flow g' :
  MAF x_size y_size "UMNN" num_transforms moments kwargs g = (Ok flow, g') →
  Forall (receives (λ tf _ _ kw,
            tf = MaskedUMNNAutoregressiveTransform ∧
            kw !! "integrand_net_layers"
              = Some (default (PyList [PyInt 64; PyInt 64; PyInt 64])
                        (kwargs !! "integrand_net_layers")) ∧
            kw !! "cond_size"
              = Some (default (PyInt 32) (kwargs !! "cond_size")) ∧
            kw !! "nb_steps"
              = Some (default (PyInt 32) (kwargs !! "nb_steps"))))
         (transforms flow).
Proof.
  intros HM. eapply MAF_receives; [exact HM |]. apply MAF_options_UMNN.
Qed.

(** X2. An option the caller passes reaches every autoregressive transform
    with the caller's value; the one exception is [tails] under ['PRQ']. *)
Theorem MAF_caller_options_kept x_size y_size architecture num_transforms
    moments kwargs g flow g' k v :
  MAF x_size y_size architecture num_transforms moments kwargs g
    = (Ok flow, g') →
  kwargs !! k = Some v →
  (architecture = "PRQ" → k ≠ "tails") →
  Forall (receives (λ _ _ _ kw, kw !! k = Some v)) (transforms flow).
Proof.
  intros HM Hk Ht. eapply MAF_receives; [exact HM |].
  by apply MAF_options_kept.
Qed.

(** X3. Outside the five common names and the names of the branch taken,
    the construction adds nothing and removes nothing: such an option is
    given to a transform exactly when the caller passed it, unchanged.  In
    particular an ['affine'] flow is never given [tails], [num_bins] or the
    options of the monotonic network by the construction itself. *)
Theorem MAF_no_other_options x_size y_size architecture num_transforms
    moments kwargs g flow g' k :
  MAF x_size y_size architecture num_transforms moments kwargs g
    = (Ok flow, g') →
  k ∉ common_keys ++ architecture_keys architecture →
  Forall (receives (λ _ _ _ kw, kw !! k = kwargs !! k)) (transforms flow).
Proof.
  intros HM Hk. eapply MAF_receives; [exact HM |].
  by apply MAF_options_other.
Qed.

(** X4. An option named [features] or [context_features] collides with the
    keywords the loop passes itself: once the standardization step (if any)
    has succeeded, a construction with at least one round raises
    [TypeError] in its first round, before any autoregressive transform or
    permutation is constructed, the generator untouched. *)
Theorem MAF_duplicate_keyword x_size y_size architecture num_transforms
    moments kwargs g :
  (1 ≤ num_transforms)%Z →
  accepts (MAF_standardize moments) →
  is_Some (kwargs !! "features") ∨ is_Some (kwargs !! "context_features") →
  MAF x_size y_size architecture num_transforms moments kwargs g
    = (Raise TypeError, g).
Proof.
  intros Hn Hm Hk. unfold MAF.
  pose proof (MAF_options_other architecture kwargs "features") as Hf.
  pose proof (MAF_options_other architecture kwargs "context_features") as Hc.
  destruct (MAF_options architecture kwargs) as [tf kw]. simpl in Hf, Hc.
  assert (kw !! "features" = kwargs !! "features") as Hf'
    by (apply Hf; unfold architecture_keys, common_keys;
        repeat case_match; cbn;
        repeat (apply not_elem_of_cons; split; [done |]);
        apply not_elem_of_nil).
  assert (kw !! "context_features" = kwargs !! "context_features") as Hc'
    by (apply Hc; unfold architecture_keys, common_keys;
        repeat case_match; cbn;
        repeat (apply not_elem_of_cons; split; [done |]);
        apply not_elem_of_nil).
  clear Hf Hc.
  destruct (Hm g) as (pre & g0 & Hpre).
  destruct (MAF_standardize_Ok _ _ _ _ Hpre) as [-> _].
  rewrite (bind_Ok_intro _ _ _ _ _ Hpre).
  destruct (Z.to_nat num_transforms) as [|r] eqn:Er; [lia |].
  simpl. unfold bind at 1, bind at 1, new_autoregressive. rewrite Hf', Hc'.
  destruct Hk as [[v Hv] | [v Hv]]; rewrite Hv.
  - done.
  - by destruct (kwargs !! "features").
Qed.

(** X5. A count below one runs no round, as [range] is empty: when the
    library accepts the standardization transform of the moments (or there
    are none) the construction returns, the generator untouched, the flow
    that [num_transforms = 0] gives, without any autoregressive transform or
    permutation. *)
Theorem MAF_negative_count x_size y_size architecture num_transforms moments
    kwargs g :
  (num_transforms ≤ 0)%Z →
  accepts (MAF_standardize moments) →
  ∃ flow,
    MAF x_size y_size architecture num_transforms moments kwargs g
      = (Ok flow, g) ∧
    MAF x_size y_size architecture 0 moments kwargs g = (Ok flow, g) ∧
    Forall (λ t, ∃ a b, t = PointwiseAffineTransform a b) (transforms flow).
Proof.
  intros Hn Hm.
  destruct (Hm g) as (pre & g0 & Hpre).
  destruct (MAF_standardize_Ok _ _ _ _ Hpre) as [-> Hpre'].
  exists (mkFlow pre (StandardNormal [x_size])).
  unfold MAF. destruct (MAF_options architecture kwargs) as [tf kw].
  rewrite !(bind_Ok_intro _ _ _ _ _ Hpre).
  replace (Z.to_nat num_transforms) with 0 by lia.
  repeat split. simpl.
  destruct moments as [[shift scale]|];
    [destruct Hpre' as (o & _ & ->) | subst]; repeat constructor; eauto.
Qed.

(** X6. Moments do not touch the learnable stack.  With moments of one
    shape, the constructor of the standardization transform runs first: its
    exception ends the construction before any round, the generator
    untouched; when it accepts, the construction ends as it does without
    moments, same exception or same generator state, and on success the
    flow is the one built without moments with the standardization
    transform in front. *)
Theorem MAF_moments_in_front x_size y_size architecture num_transforms
    shift scale kwargs g :
  shape shift = shape scale →
  MAF x_size y_size architecture num_transforms (Some (shift, scale))
      kwargs g
  = match affine_init
            (mkTensor (shape shift)
               (zip_with (λ s c, - s / c)%R (data shift) (data scale)))
            (trecip scale) with
    | Raise e => (Raise e, g)
    | Ok _ =>
        match MAF x_size y_size architecture num_transforms None kwargs g
        with
        | (Ok flow, g') =>
            (Ok (mkFlow
                   (PointwiseAffineTransform
                      (mkTensor (shape shift)
                         (zip_with (λ s c, - s / c)%R
                            (data shift) (data scale)))
                      (trecip scale) :: transforms flow)
                   (base flow)), g')
        | (Raise e, g') => (Raise e, g')
        end
    end.
Proof.
  intros Hs. unfold MAF. destruct (MAF_options architecture kwargs) as [tf kw].
  unfold bind at 1. rewrite (MAF_standardize_Some _ _ _ Hs).
  destruct (affine_init _ (trecip scale)); [| done].
  simpl MAF_standardize. unfold bind, ret, NormalizingFlow_init.
  rewrite MAF_loop_acc.
  by destruct (MAF_loop tf x_size y_size kw (Z.to_nat num_transforms) [] g)
    as [[bl|e] g1].
Qed.

(** X8. Passing the accumulated options back, that is, writing the
    defaults out, changes nothing: same class, same options, same
    construction. *)
Theorem MAF_explicit_defaults x_size y_size architecture num_transforms
    moments kwargs g :
  MAF x_size y_size architecture num_transforms moments
      (MAF_options architecture kwargs).2 g
  = MAF x_size y_size architecture num_transforms moments kwargs g.
Proof. unfold MAF. by rewrite MAF_options_idempotent. Qed.

Lemma MAF_loop_add tf x y kw n m acc g :
  MAF_loop tf x y kw (n + m) acc g
  = bind (MAF_loop tf x y kw n acc) (MAF_loop tf x y kw m) g.
Proof.
  revert acc g. induction n as [|n IH]; simpl; intros acc g.
  - by unfold bind, ret.
  - unfold bind in *.
    destruct (new_autoregressive tf x y kw g) as [[t|e] g1]; [| done].
    destruct (new_permutation x g1) as [[p|e] g2]; [| done].
    apply IH.
Qed.

(** X7. What [sample] returns, for a flow over [d] features.  An exception
    of the flow container passes through unchanged.  Samples that the
    container returns come back with their contents untouched under the
    shape [y.shape[:-1] + shape + (d,)] exactly when the leading dimensions
    of [y] hold one item (a single context vector in particular) or nothing
    was requested; otherwise the [view] raises [RuntimeError]. *)
Theorem sample_outcome self y shape' d g :
  base self = StandardNormal [d] →
  sample self y shape' g
  = match Flow_sample self (numel shape') (unsqueeze0 y) g with
    | (Ok x, g1) =>
        if decide (numel (init_slice (shape y)) = 1 ∨ numel shape' * d = 0)
        then (Ok (mkTensor (init_slice (shape y) ++ shape' ++ [d]) (data x)),
              g1)
        else (Raise RuntimeError, g1)
    | (Raise e, g1) => (Raise e, g1)
    end.
Proof.
  intros Hbase. unfold sample.
  destruct (Flow_sample self (numel shape') (unsqueeze0 y) g)
    as [[x|e] g1] eqn:Hx.
  - rewrite (bind_Ok_intro _ _ _ _ _ Hx).
    destruct (Flow_sample_shape _ _ _ _ _ _ Hx) as (b & s & [= <- <-] & Hsh).
    rewrite Hbase in Hsh. simpl in Hsh.
    unfold bind, lift, view, ret. rewrite Hsh.
    replace (last_slice [1; numel shape'; d]) with [d] by done.
    rewrite !numel_app.
    replace (numel [1; numel shape'; d]) with (numel shape' * numel [d])
      by (simpl; lia).
    assert (numel [d] = d) as -> by (simpl; lia).
    destruct (Nat.eqb_spec
                (numel (init_slice (shape y)) * (numel shape' * d))
                (numel shape' * d)) as [E|E].
    + rewrite decide_True; [done | nia].
    + rewrite decide_False; [done | nia].
  - by rewrite (bind_Raise _ _ _ _ _ Hx).
Qed.

(** X9. A constructed flow is consistent in its dimensions: the base is
    the standard normal over [x_size] features and every stored permutation
    has [x_size] entries. *)
Theorem MAF_dimensions x_size y_size architecture num_transforms moments
    kwargs g flow g' :
  MAF x_size y_size architecture num_transforms moments kwargs g
    = (Ok flow, g') →
  base flow = StandardNormal [x_size] ∧
  numel (event_shape (base flow)) = x_size ∧
  Forall (permutes x_size) (transforms flow).
Proof.
  intros (pre & bl & Hpre & -> & Hbl)%MAF_Ok. simpl.
  split; [done |]. split; [lia |].
  apply MAF_standardize_Ok in Hpre as [_ Hpre].
  apply Forall_app. split.
  - destruct moments as [[shift scale]|];
      [destruct Hpre as (o & _ & ->) | subst]; by repeat constructor.
  - apply Forall_forall. intros t Hin.
    destruct (blocks_elem_of _ _ _ _ _ _ _ Hbl Hin)
      as [[θ ->] | (p & -> & Hp)]; simpl; [done |].
    by rewrite (Permutation_length Hp), length_seq.
Qed.

(** X10. Once the standardization step (if any) has succeeded, an
    exception of the library's constructor of the autoregressive transform,
    raised in the first round, ends the construction with that exception
    and the generator as the constructor left it: nothing is caught, no
    permutation is drawn. *)
Theorem MAF_constructor_error x_size y_size architecture num_transforms
    moments kwargs g e g1 :
  (1 ≤ num_transforms)%Z →
  accepts (MAF_standardize moments) →
  kwargs !! "features" = None →
  kwargs !! "context_features" = None →
  ar_init (MAF_options architecture kwargs).1 x_size y_size
          (MAF_options architecture kwargs).2 g = (Raise e, g1) →
  MAF x_size y_size architecture num_transforms moments kwargs g
    = (Raise e, g1).
Proof.
  intros Hn Hm Hf Hc He. unfold MAF.
  pose proof (MAF_options_other architecture kwargs "features") as Hf'.
  pose proof (MAF_options_other architecture kwargs "context_features")
    as Hc'.
  destruct (MAF_options architecture kwargs) as [tf kw].
  simpl in Hf', Hc', He.
  rewrite Hf in Hf'. rewrite Hc in Hc'.
  destruct (Hm g) as (pre & g0 & Hpre).
  destruct (MAF_standardize_Ok _ _ _ _ Hpre) as [-> _].
  rewrite (bind_Ok_intro _ _ _ _ _ Hpre).
  destruct (Z.to_nat num_transforms) as [|r] eqn:Er; [lia |].
  simpl. unfold bind at 1, bind at 1, new_autoregressive.
  rewrite Hf', Hc'.
  - unfold bind. by rewrite He.
  - unfold architecture_keys, common_keys; repeat case_match; cbn;
      repeat (apply not_elem_of_cons; split; [done |]);
      apply not_elem_of_nil.
  - unfold architecture_keys, common_keys; repeat case_match; cbn;
      repeat (apply not_elem_of_cons; split; [done |]);
      apply not_elem_of_nil.
Qed.

(** X11. Rounds are run one after the other on one generator: when a
    construction with [n + k] rounds returns, the construction with [n]
    rounds from the same generator state returns too, and its transform
    list is the beginning of the longer one. *)
Theorem MAF_deeper_extends x_size y_size architecture n k moments kwargs g
    flow2 g2 :
  (0 ≤ n)%Z → (0 ≤ k)%Z →
  MAF x_size y_size architecture (n + k) moments kwargs g = (Ok flow2, g2) →
  ∃ flow1 g1,
    MAF x_size y_size architecture n moments kwargs g = (Ok flow1, g1) ∧
    transforms flow1 `prefix_of` transforms flow2 ∧
    base flow1 = base flow2.
Proof.
  intros Hn Hk. unfold MAF.
  destruct (MAF_options architecture kwargs) as [tf kw].
  intros (pre & g0 & Hpre & (ts & g3 & Hloop & [= <- <-])%bind_Ok)%bind_Ok.
  rewrite Z2Nat.inj_add, MAF_loop_add in Hloop by done.
  apply bind_Ok in Hloop as (ts1 & g1 & H1 & H2).
  apply MAF_loop_Ok in H2 as (bl & -> & _).
  exists (mkFlow ts1 (StandardNormal [x_size])), g1.
  rewrite (bind_Ok_intro _ _ _ _ _ Hpre), (bind_Ok_intro _ _ _ _ _ H1).
  repeat split. simpl. by exists bl.
Qed.

End MAFExtras.

(** ** The claims on the small library *)

Section Instances.
Let T := Toy.library.

Lemma sample_batched_context_raises_witness :
  is_ok (sample (L := T) (mkFlow [] (StandardNormal [3]))
           (mkTensor [2; 2] [0; 0; 0; 0]%R) [5] 0).1 = false.
Proof.
  apply (sample_batched_context_raises (L := T)
           (mkFlow [] (StandardNormal [3]))
           (mkTensor [2; 2] [0; 0; 0; 0]%R) [5] 3 0).
  - reflexivity.
  - simpl. lia.
  - simpl. lia.
Defined.


Lemma MAF_standardization_first_witness :
  ∃ flow g',
    MAF (L := T) 2 2 "affine" 1 (Some (toy_shift, toy_scale)) ∅ 0
      = (Ok flow, g') ∧
    ∃ offset rest,
      transforms flow
        = PointwiseAffineTransform offset (trecip toy_scale) :: rest ∧
      ∃ logabsdet,
        forward (L := T) (PointwiseAffineTransform offset (trecip toy_scale))
                [3; 6]%R (zeros 2) 0
        = (Ok (standardize [3; 6]%R [1; 2]%R [2; 4]%R, logabsdet), 0).
Proof.
  eexists _, _. split; [reflexivity |].
  edestruct (MAF_standardization_first (L := T) 2 2 "affine" 1
               toy_shift toy_scale ∅ 0)
    as (offset & rest & H1 & _ & _ & _ & H5); [reflexivity |].
  exists offset, rest. split; [exact H1 |].
  apply (H5 [3; 6]%R (zeros 2) 0); reflexivity.
Defined.

Lemma MAF_unknown_tag_is_affine_witness :
  (MAF_options "spline" ∅).1 = MaskedAffineAutoregressiveTransform ∧
  MAF (L := T) 3 2 "spline" 2 None ∅ 0 = MAF (L := T) 3 2 "affine" 2 None ∅ 0.
Proof.
  apply (MAF_unknown_tag_is_affine (L := T) 3 2 "spline" 2 None ∅ 0);
    discriminate.
Defined.

Lemma MAF_PRQ_options_witness :
  ∃ flow g',
    MAF (L := T) 3 2 "PRQ" 1 None toy_kwargs 0 = (Ok flow, g') ∧
    Forall (receives (λ tf _ _ kw,
              tf = MaskedPiecewiseRationalQuadraticAutoregressiveTransform ∧
              kw !! "tails" = Some (PyStr "linear") ∧
              kw !! "num_bins"
                = Some (default (PyInt 8) (toy_kwargs !! "num_bins")) ∧
              kw !! "tail_bound"
                = Some (default (PyFloat 1) (toy_kwargs !! "tail_bound"))))
           (transforms flow).
Proof.
  eexists _, _. split; [reflexivity |].
  eapply (MAF_PRQ_options (L := T) 3 2 1 None toy_kwargs 0). reflexivity.
Defined.

Lemma MAF_common_options_witness :
  ∃ flow g',
    MAF (L := T) 3 2 "UMNN" 1 None toy_kwargs 0 = (Ok flow, g') ∧
    Forall (receives (λ _ _ _ kw,
              kw !! "hidden_features"
                = Some (default (PyInt 64) (toy_kwargs !! "hidden_features")) ∧
              kw !! "num_blocks"
                = Some (default (PyInt 2) (toy_kwargs !! "num_blocks")) ∧
              kw !! "use_residual_blocks"
                = Some (default (PyBool false)
                          (toy_kwargs !! "use_residual_blocks")) ∧
              kw !! "use_batch_norm"
                = Some (default (PyBool false)
                          (toy_kwargs !! "use_batch_norm")) ∧
              kw !! "activation"
                = Some (default (PyFunc "relu") (toy_kwargs !! "activation"))))
           (transforms flow).
Proof.
  eexists _, _. split; [reflexivity |].
  eapply (MAF_common_options (L := T) 3 2 "UMNN" 1 None toy_kwargs 0).
  reflexivity.
Defined.

Lemma MAF_blocks_share_options_witness :
  ∃ flow g',
    MAF (L := T) 3 2 "affine" 2 None toy_kwargs 0 = (Ok flow, g') ∧
    length (List.filter autoregressive (transforms flow)) = Z.to_nat 2 ∧
    Forall (receives (λ tf features context_features kw,
              tf = (MAF_options "affine" toy_kwargs).1 ∧
              features = 3 ∧ context_features = 2 ∧
              kw = (MAF_options "affine" toy_kwargs).2))
           (transforms flow).
Proof.
  eexists _, _. split; [reflexivity |].
  eapply (MAF_blocks_share_options (L := T) 3 2 "affine" 2 None toy_kwargs 0).
  reflexivity.
Defined.

Lemma MAF_identity_moments_witness :
  ∃ flow g' flow0,
    MAF (L := T) 2 2 "affine" 1 None ∅ 0 = (Ok flow, g') ∧
    MAF (L := T) 2 2 "affine" 1 (Some (zeros 2, ones 2)) ∅ 0
      = (Ok flow0, g') ∧
    log_prob flow0 toy_x toy_y 0 = log_prob flow toy_x toy_y 0 ∧
    sample flow0 (zeros 2) [5] 0 = sample flow (zeros 2) [5] 0.
Proof.
  eexists _, _.
  edestruct (MAF_identity_moments (L := T) 2 2 "affine" 1 ∅ 0)
    as (flow0 & H1 & _ & _ & H4 & H5); [reflexivity |].
  exists flow0. split; [reflexivity |]. split; [exact H1 |]. split.
  - apply (H4 _ _ 1); reflexivity.
  - apply H5.
Defined.

Lemma MAF_without_transforms_witness :
  ∃ flow,
    MAF (L := T) 2 2 "affine" 0 (Some (toy_shift, toy_scale)) ∅ 0
      = (Ok flow, 0) ∧
    length (transforms flow) = 1 ∧
    log_prob flow toy_x toy_y 0
      = (Ok (mkTensor [1]
               (standardized_log_density (Some (toy_shift, toy_scale))
                  <$> chunks 1 2 (data toy_x))), 0).
Proof.
  destruct (MAF_without_transforms (L := T) 2 2 "affine"
              (Some (toy_shift, toy_scale)) ∅ 0)
    as (flow & H1 & H2 & _ & H4);
    [intros g; eexists _, _; reflexivity |].
  exists flow. split; [exact H1 |]. split; [exact H2 |].
  apply (H4 toy_x toy_y 1 [2]); try reflexivity.
  by intros shift scale [= <- <-].
Defined.

(** Against C8 as stated: a flow built with dropout in its networks gives
    two different results to two successive calls with the same arguments,
    the first call having advanced the generator. *)
Lemma log_prob_reads_generator :
  ∃ flow g0 r1 r2 g',
    MAF (L := T) 2 2 "affine" 1 None toy_dropout 0 = (Ok flow, g0) ∧
    (let! r1 := log_prob flow toy_x toy_y in
     let! r2 := log_prob flow toy_x toy_y in
     ret (r1, r2)) g0 = (Ok (r1, r2), g') ∧
    r1 ≠ r2.
Proof.
  eexists _, _, _, _, _. split; [reflexivity |]. split; [reflexivity |].
  intros H. apply (f_equal data) in H.
  cbv [data fmap list_fmap zip_with nth toy_x] in H. simpl in H.
  injection H as H. lra.
Qed.

Lemma log_prob_deterministic_without_dropout_witness :
  ∃ flow g0,
    MAF (L := T) 2 2 "affine" 1 None ∅ 0 = (Ok flow, g0) ∧
    (log_prob flow toy_x toy_y 0).1 = (log_prob flow toy_x toy_y 5).1 ∧
    (log_prob flow toy_x toy_y 0).2 = 0.
Proof.
  eexists _, _. split; [reflexivity |].
  apply (log_prob_deterministic_without_dropout (L := T) _ toy_x toy_y 0 5).
  constructor; [| constructor; [| constructor]];
    intros x c; eexists; intros g; reflexivity.
Defined.

(** The failing call behind C1, evaluated: two contexts, five samples of
    three features requested, fifteen entries returned by the container. *)
Example sample_two_contexts :
  sample (L := T) (mkFlow [] (StandardNormal [3]))
         (mkTensor [2; 2] [0; 0; 0; 0]%R) [5] 0
  = (Raise RuntimeError, 1).
Proof. reflexivity. Qed.

(** A single context vector: five samples of three features. *)
Example sample_one_context :
  ∃ x, sample (L := T) (mkFlow [] (StandardNormal [3])) (zeros 2) [5] 0
       = (Ok x, 1) ∧ shape x = [5; 3].
Proof. eexists. split; reflexivity. Qed.

(** The default [shape = ()]: one sample, of shape [(x_size,)]. *)
Example sample_default_shape :
  ∃ x, sample (L := T) (mkFlow [] (StandardNormal [3])) (zeros 2) [] 0
       = (Ok x, 1) ∧ shape x = [3].
Proof. eexists. split; reflexivity. Qed.

(** The scenario of the specification: a flow of two affine blocks over
    three features, five samples for one context of two entries. *)
Example sample_from_MAF :
  ∃ x g,
    bind (L := T) (MAF 3 2 "affine" 2 None ∅)
         (λ flow, sample flow (zeros 2) [5]) 0 = (Ok x, g) ∧
    shape x = [5; 3].
Proof. eexists _, _. split; reflexivity. Qed.

(** Unlike [log_prob], [sample] reads the generator: two states give two
    different samples. *)
Example sample_reads_generator :
  (sample (L := T) (mkFlow [] (StandardNormal [1])) (zeros 1) [] 0).1
  ≠ (sample (L := T) (mkFlow [] (StandardNormal [1])) (zeros 1) [] 1).1.
Proof.
  intros H. cbv [sample Flow_sample bind lift ret rows unsqueeze0 zeros
                 shape data numel foldr Nat.mul] in H.
  simpl in H. injection H as H. lra.
Qed.

End Instances.

(** ** The further properties on the small library *)

Section ExtraInstances.
Let T := Toy.library.

Lemma MAF_UMNN_options_witness :
  ∃ flow g',
    MAF (L := T) 3 2 "UMNN" 1 None toy_kwargs 0 = (Ok flow, g') ∧
    Forall (receives (λ tf _ _ kw,
              tf = MaskedUMNNAutoregressiveTransform ∧
              kw !! "integrand_net_layers"
                = Some (default (PyList [PyInt 64; PyInt 64; PyInt 64])
                          (toy_kwargs !! "integrand_net_layers")) ∧
              kw !! "cond_size"
                = Some (default (PyInt 32) (toy_kwargs !! "cond_size")) ∧
              kw !! "nb_steps"
                = Some (default (PyInt 32) (toy_kwargs !! "nb_steps"))))
           (transforms flow).
Proof.
  eexists _, _. split; [reflexivity |].
  eapply (MAF_UMNN_options (L := T) 3 2 1 None toy_kwargs 0). reflexivity.
Defined.

Lemma MAF_caller_options_kept_witness :
  ∃ flow g',
    MAF (L := T) 3 2 "PRQ" 1 None toy_kwargs 0 = (Ok flow, g') ∧
    Forall (receives (λ _ _ _ kw, kw !! "hidden_features" = Some (PyInt 128)))
           (transforms flow).
Proof.
  eexists _, _. split; [reflexivity |].
  eapply (MAF_caller_options_kept (L := T) 3 2 "PRQ" 1 None toy_kwargs 0).
  - reflexivity.
  - reflexivity.
  - intros _. discriminate.
Defined.

Lemma MAF_no_other_options_witness :
  ∃ flow g',
    MAF (L := T) 3 2 "affine" 1 None ∅ 0 = (Ok flow, g') ∧
    Forall (receives (λ _ _ _ kw,
              kw !! "tails" = (∅ : gmap string pyval) !! "tails"))
           (transforms flow).
Proof.
  eexists _, _. split; [reflexivity |].
  eapply (MAF_no_other_options (L := T) 3 2 "affine" 1 None ∅ 0).
  - reflexivity.
  - cbn. repeat (apply not_elem_of_cons; split; [discriminate |]).
    apply not_elem_of_nil.
Defined.

Lemma MAF_duplicate_keyword_witness :
  MAF (L := T) 3 2 "affine" 2 None (<["features" := PyInt 7]> ∅) 0
  = (Raise TypeError, 0).
Proof.
  apply (MAF_duplicate_keyword (L := T) 3 2 "affine" 2 None
           (<["features" := PyInt 7]> ∅) 0).
  - lia.
  - intros g. eexists _, _. reflexivity.
  - left. eexists. reflexivity.
Defined.

Lemma MAF_negative_count_witness :
  ∃ flow,
    MAF (L := T) 3 2 "affine" (-3) None ∅ 0 = (Ok flow, 0) ∧
    MAF (L := T) 3 2 "affine" 0 None ∅ 0 = (Ok flow, 0) ∧
    Forall (λ t, ∃ a b, t = PointwiseAffineTransform a b) (transforms flow).
Proof.
  apply (MAF_negative_count (L := T) 3 2 "affine" (-3) None ∅ 0).
  - lia.
  - intros g. eexists _, _. reflexivity.
Defined.

Lemma MAF_moments_in_front_witness :
  MAF (L := T) 2 2 "affine" 1 (Some (toy_shift, toy_scale)) ∅ 0
  = match affine_init (FlowLibrary := T)
            (mkTensor (shape toy_shift)
               (zip_with (λ s c, - s / c)%R (data toy_shift)
                  (data toy_scale)))
            (trecip toy_scale) with
    | Raise e => (Raise e, 0)
    | Ok _ =>
        match MAF (L := T) 2 2 "affine" 1 None ∅ 0 with
        | (Ok flow, g') =>
            (Ok (mkFlow
                   (PointwiseAffineTransform
                      (mkTensor (shape toy_shift)
                         (zip_with (λ s c, - s / c)%R (data toy_shift)
                            (data toy_scale)))
                      (trecip toy_scale) :: transforms flow)
                   (base flow)), g')
        | (Raise e, g') => (Raise e, g')
        end
    end.
Proof.
  apply (MAF_moments_in_front (L := T) 2 2 "affine" 1 toy_shift toy_scale ∅ 0).
  reflexivity.
Defined.

Lemma sample_outcome_witness :
  sample (L := T) (mkFlow [] (StandardNormal [3])) (zeros 2) [5] 0
  = match Flow_sample (L := T) (mkFlow [] (StandardNormal [3])) (numel [5])
            (unsqueeze0 (zeros 2)) 0 with
    | (Ok x, g1) =>
        if decide (numel (init_slice (shape (zeros 2))) = 1 ∨
                   numel [5] * 3 = 0)
        then (Ok (mkTensor (init_slice (shape (zeros 2)) ++ [5] ++ [3])
                    (data x)), g1)
        else (Raise RuntimeError, g1)
    | (Raise e, g1) => (Raise e, g1)
    end.
Proof.
  apply (sample_outcome (L := T) (mkFlow [] (StandardNormal [3])) (zeros 2)
           [5] 3 0).
  reflexivity.
Defined.

Lemma MAF_dimensions_witness :
  ∃ flow g',
    MAF (L := T) 3 2 "affine" 2 None ∅ 0 = (Ok flow, g') ∧
    base flow = StandardNormal [3] ∧
    numel (event_shape (base flow)) = 3 ∧
    Forall (permutes 3) (transforms flow).
Proof.
  eexists _, _. split; [reflexivity |].
  eapply (MAF_dimensions (L := T) 3 2 "affine" 2 None ∅ 0). reflexivity.
Defined.

Lemma MAF_constructor_error_witness :
  MAF (L := T) 0 2 "affine" 2 None ∅ 0 = (Raise ValueError, 0).
Proof.
  apply (MAF_constructor_error (L := T) 0 2 "affine" 2 None ∅ 0 ValueError 0).
  - lia.
  - intros g. eexists _, _. reflexivity.
  - reflexivity.
  - reflexivity.
  - reflexivity.
Defined.

Lemma MAF_deeper_extends_witness :
  ∃ flow2 g2 flow1 g1,
    MAF (L := T) 3 2 "affine" (1 + 1) None ∅ 0 = (Ok flow2, g2) ∧
    MAF (L := T) 3 2 "affine" 1 None ∅ 0 = (Ok flow1, g1) ∧
    transforms flow1 `prefix_of` transforms flow2 ∧
    base flow1 = base flow2.
Proof.
  eexists _, _.
  edestruct (MAF_deeper_extends (L := T) 3 2 "affine" 1 1 None ∅ 0)
    as (flow1 & g1 & H1 & H2 & H3); [lia | lia | reflexivity |].
  exists flow1, g1. split; [reflexivity |]. auto.
Defined.

End ExtraInstances.
